(** * next-cut: [computePerformance] and the swim-standards transformer

    A shallow embedding of [src/computePerformance.ts] and of
    [src/transformers/swimTransformer.ts], and the properties of the
    specification stated over it.

    - JavaScript numbers are IEEE 754 binary64 values: [spec_float] at
      precision 53 and maximal exponent 1024, with the arithmetic of
      [SpecFloat].  The [Math], [Number] and [String] built-ins the code
      calls are written out in the modules [Num] and [Str].
    - Strings are sequences of 8-bit code units.
    - A call either returns a value or throws: the [completion] monad.
    - [Map<string, Standard>] is a [gmap string Standard].
    - The object that the transformer reads is its own properties
      together with what it inherits: [mapping[label]] looks at both. *)

From Stdlib Require Import ZArith Ascii String DecimalString List Bool Lia.
From Stdlib Require Import Floats.SpecFloat.
From stdpp Require Import base option list strings gmap.

Set Default Proof Using "Type".

(** ** JavaScript numbers *)

Module Num.

Definition prec : Z := 53.
Definition emax : Z := 1024.

Abbreviation number := spec_float.

Definition NaN : number := S754_nan.
Definition Infinity : number := S754_infinity false.
Definition zero : number := S754_zero false.

(** The Number value of an integer (round to nearest, ties to even). *)
Definition of_Z (z : Z) : number := binary_normalize prec emax z 0 false.

(** The Number value of the rational [n / d], for [0 <= n] and [0 < d],
    with sign [neg]: the quotient is rounded once, from the exact
    remainder, as [SFdiv] rounds. *)
Definition of_ratio (neg : bool) (n d : Z) : number :=
  match n with
  | Z0 => S754_zero neg
  | Zpos _ =>
      let '(mz, ez, lz) := SFdiv_core_binary prec emax n 0 d 0 in
      binary_round_aux prec emax neg mz ez lz
  | Zneg _ => NaN
  end.

Definition add : number -> number -> number := SFadd prec emax.
Definition sub : number -> number -> number := SFsub prec emax.
Definition mul : number -> number -> number := SFmul prec emax.
Definition div : number -> number -> number := SFdiv prec emax.

(** [x < y], [x <= y], [x > y], [x >= y]: false as soon as one side is NaN. *)
Definition lt (x y : number) : bool := SFltb x y.
Definition le (x y : number) : bool := SFleb x y.
Definition gt (x y : number) : bool := SFltb y x.
Definition ge (x y : number) : bool := SFleb y x.

(** [Number.isNaN] and [Number.isFinite]. *)
Definition isNaN (x : number) : bool :=
  match x with S754_nan => true | _ => false end.

Definition isFinite (x : number) : bool :=
  match x with
  | S754_zero _ | S754_finite _ _ _ => true
  | S754_infinity _ | S754_nan => false
  end.

(** [Math.abs]. *)
Definition abs (x : number) : number := SFabs x.

(** [Math.max(0, x)]: NaN when [x] is NaN, and [+0] is larger than [-0]. *)
Definition max0 (x : number) : number :=
  if isNaN x then NaN else if gt x zero then x else zero.

(** The signed integer [sx * mx] of a finite number's mantissa. *)
Definition signed (s : bool) (m : positive) : Z := cond_Zopp s (Zpos m).

(** [Math.floor]: the largest integer below; it is a Number again. *)
Definition floor (x : number) : number :=
  match x with
  | S754_finite s m e =>
      if (0 <=? e)%Z then x
      else
        match Z.shiftr (signed s m) (- e) with
        | Z0 => S754_zero s
        | z => binary_normalize prec emax z 0 false
        end
  | _ => x
  end.

(** [Math.round]: the nearest integer, a tie going up; values in
    [[-0.5, -0]] give [-0]. *)
Definition round (x : number) : number :=
  match x with
  | S754_finite s m e =>
      if (0 <=? e)%Z then x
      else
        match Z.shiftr (2 * signed s m + 2 ^ (- e)) (- e + 1) with
        | Z0 => S754_zero s
        | z => binary_normalize prec emax z 0 false
        end
  | _ => x
  end.

(** [x % y]: the remainder of the truncating division, with the sign of
    [x]; it is computed exactly. *)
Definition rem (x y : number) : number :=
  match x, y with
  | S754_nan, _ | _, S754_nan => NaN
  | S754_infinity _, _ => NaN
  | _, S754_zero _ => NaN
  | _, S754_infinity _ => x
  | S754_zero _, _ => x
  | S754_finite sx mx ex, S754_finite _ my ey =>
      let e := Z.min ex ey in
      let X := (Zpos mx * 2 ^ (ex - e))%Z in
      let Y := (Zpos my * 2 ^ (ey - e))%Z in
      binary_normalize prec emax (cond_Zopp sx (Z.rem X Y)) e sx
  end.

(** Structural equality of Number values (NaN equal to NaN): used to
    test that a decimal reads back as the same Number. *)
Definition same (x y : number) : bool :=
  match x, y with
  | S754_zero s1, S754_zero s2 => Bool.eqb s1 s2
  | S754_infinity s1, S754_infinity s2 => Bool.eqb s1 s2
  | S754_nan, S754_nan => true
  | S754_finite s1 m1 e1, S754_finite s2 m2 e2 =>
      Bool.eqb s1 s2 && (m1 =? m2)%positive && (e1 =? e2)%Z
  | _, _ => false
  end.

(** The Number value of the decimal [n * 10^p] (for [0 <= n]), signed. *)
Definition of_decimal (neg : bool) (n p : Z) : number :=
  if (0 <=? p)%Z then of_ratio neg (n * 10 ^ p) 1
  else of_ratio neg n (10 ^ (- p)).

End Num.

Export Num(number).

(** ** JavaScript strings and the conversions between strings and numbers *)

Module Str.
Local Open Scope char_scope.

Definition chars (s : string) : list ascii := list_ascii_of_string s.
Definition of_chars (cs : list ascii) : string := string_of_list_ascii cs.

Definition code (c : ascii) : Z := Z.of_nat (nat_of_ascii c).

Definition in_range (lo hi : ascii) (c : ascii) : bool :=
  ((code lo <=? code c) && (code c <=? code hi))%Z.

(** [\d] *)
Definition is_digit (c : ascii) : bool := in_range "0" "9" c.
(** [[0-5]] *)
Definition is_0_5 (c : ascii) : bool := in_range "0" "5" c.

Definition digit_val (c : ascii) : Z :=
  if is_digit c then code c - code "0"
  else if in_range "a" "f" c then code c - code "a" + 10
  else if in_range "A" "F" c then code c - code "A" + 10
  else 0.

Definition is_digit_of (radix : Z) (c : ascii) : bool :=
  (is_digit c || in_range "a" "f" c || in_range "A" "F" c)
  && (digit_val c <? radix)%Z.

(** The mathematical value of a digit sequence. *)
Definition value_of (radix : Z) (ds : list ascii) : Z :=
  fold_left (fun acc c => (radix * acc + digit_val c)%Z) ds 0%Z.

Definition nonempty {A} (l : list A) : bool :=
  match l with [] => false | _ :: _ => true end.

(** The longest prefix whose characters satisfy [p], and the rest. *)
Fixpoint span (p : ascii -> bool) (cs : list ascii) : list ascii * list ascii :=
  match cs with
  | c :: cs' =>
      if p c then let '(a, b) := span p cs' in (c :: a, b) else ([], cs)
  | [] => ([], [])
  end.

(** White space and line terminators among the 8-bit code units. *)
Definition is_space (c : ascii) : bool :=
  let n := code c in
  ((9 <=? n) && (n <=? 13) || (n =? 32) || (n =? 160))%Z.

Fixpoint drop_spaces (cs : list ascii) : list ascii :=
  match cs with
  | c :: cs' => if is_space c then drop_spaces cs' else cs
  | [] => []
  end.

(** [String.prototype.trim] *)
Definition trim_chars (cs : list ascii) : list ascii :=
  rev (drop_spaces (rev (drop_spaces cs))).

Definition trim (s : string) : string := of_chars (trim_chars (chars s)).

(** [s.padStart(2, '0')] *)
Definition padStart2 (s : string) : string :=
  match chars s with
  | [] => "00"%string
  | [c] => String "0" s
  | _ => s
  end.

(** The decimal digits of a natural number ("0" for zero). *)
Definition decimal (z : Z) : string :=
  NilZero.string_of_uint (N.to_uint (Z.to_N z)).

Definition zeros (n : Z) : string := of_chars (repeat "0" (Z.to_nat n)).

(** *** Number to string *)

Section Shortest.
(** The exact value of the positive finite Number is [num / den]. *)
Variable x : number.
Variables num den : Z.

(** [num / den < 10^n] *)
Definition below_pow10 (n : Z) : bool :=
  if (0 <=? n)%Z then (num <? 10 ^ n * den)%Z
  else (num * 10 ^ (- n) <? den)%Z.

(** The least [n] from [n0] on with [num / den < 10^n]. *)
Fixpoint magnitude_up (fuel : nat) (n0 : Z) : Z :=
  match fuel with
  | O => n0
  | S fuel' => if below_pow10 n0 then n0 else magnitude_up fuel' (n0 + 1)
  end.

(** The least [n] from [n0] down with [num / den < 10^n]. *)
Fixpoint magnitude_down (fuel : nat) (n0 : Z) : Z :=
  match fuel with
  | O => n0
  | S fuel' =>
      if below_pow10 (n0 - 1) then magnitude_down fuel' (n0 - 1) else n0
  end.

(** The [n] with [10^(n-1) <= num / den < 10^n]; it is between -323
    and 309 for a Number. *)
Definition magnitude : Z :=
  if below_pow10 0 then magnitude_down 400 0 else magnitude_up 400 1.

(** [floor (num / den / 10^p)] *)
Definition scaled_floor (p : Z) : Z :=
  if (0 <=? p)%Z then (num / (den * 10 ^ p))%Z
  else (num * 10 ^ (- p) / den)%Z.

(** Does the decimal [s * 10^p] read back as [x]? *)
Definition reads_back (s p : Z) : bool :=
  Num.same (Num.of_decimal false s p) x.

(** Is [num / den] nearer to [s * 10^p] than to [(s+1) * 10^p]
    ([Lt]), at the same distance ([Eq]) or further ([Gt])? *)
Definition side (s p : Z) : comparison :=
  if (0 <=? p)%Z then (2 * num ?= (2 * s + 1) * 10 ^ p * den)%Z
  else (2 * num * 10 ^ (- p) ?= (2 * s + 1) * den)%Z.

(** The [k]-digit decimal that reads back as [x], if there is one:
    the nearest to [x] of the two that enclose it, the even one on a
    tie.  [n] is the magnitude of [x]. *)
Definition candidate (n k : Z) : option Z :=
  let p := (n - k)%Z in
  let lo := scaled_floor p in
  let hi := (lo + 1)%Z in
  match reads_back lo p, reads_back hi p with
  | true, false => Some lo
  | false, true => Some hi
  | true, true =>
      match side lo p with
      | Lt => Some lo
      | Gt => Some hi
      | Eq => Some (if Z.even lo then lo else hi)
      end
  | false, false => None
  end.

(** The shortest decimal [s * 10^(n-k)] with [k] digits in [s] that
    reads back as [x]: the result is [(s, n, k)]. *)
Fixpoint shortest (fuel : nat) (n k : Z) : Z * Z * Z :=
  match fuel with
  | O => (scaled_floor (n - k), n, k)
  | S fuel' =>
      match candidate n k with
      | Some s => if (s =? 10 ^ k)%Z then (10 ^ (k - 1), n + 1, k)%Z else (s, n, k)
      | None => shortest fuel' n (k + 1)
      end
  end.
End Shortest.

Definition exact_num (m : positive) (e : Z) : Z :=
  if (0 <=? e)%Z then (Zpos m * 2 ^ e)%Z else Zpos m.
Definition exact_den (e : Z) : Z :=
  if (0 <=? e)%Z then 1%Z else (2 ^ (- e))%Z.

Definition substring_from (n : Z) (s : string) : string :=
  of_chars (drop (Z.to_nat n) (chars s)).
Definition substring_to (n : Z) (s : string) : string :=
  of_chars (take (Z.to_nat n) (chars s)).

(** [Number::toString] for a positive finite Number. *)
Definition positive_toString (m : positive) (e : Z) : string :=
  let x := S754_finite false m e in
  let num := exact_num m e in
  let den := exact_den e in
  let n0 := magnitude num den in
  let '(s, n, k) := shortest x num den 17 n0 1 in
  let ds := decimal s in
  if ((k <=? n) && (n <=? 21))%Z then ds +:+ zeros (n - k)
  else if ((0 <? n) && (n <=? 21))%Z then
    substring_to n ds +:+ "." +:+ substring_from n ds
  else if ((-6 <? n) && (n <=? 0))%Z then
    "0." +:+ zeros (- n) +:+ ds
  else
    let ex := (n - 1)%Z in
    let sign := if (ex <? 0)%Z then "-"%string else "+"%string in
    if (k =? 1)%Z then ds +:+ "e" +:+ sign +:+ decimal (Z.abs ex)
    else substring_to 1 ds +:+ "." +:+ substring_from 1 ds
           +:+ "e" +:+ sign +:+ decimal (Z.abs ex).

(** [String(x)], [x.toString()] and a Number in a template literal. *)
Definition ofNumber (x : number) : string :=
  match x with
  | S754_nan => "NaN"
  | S754_zero _ => "0"
  | S754_infinity false => "Infinity"
  | S754_infinity true => "-Infinity"
  | S754_finite false m e => positive_toString m e
  | S754_finite true m e => "-" +:+ positive_toString m e
  end%string.

(** [x.toFixed(1)]: the integer [n] nearest to [10 * x] (the larger one
    on a tie), printed with one fractional digit. *)
Definition toFixed1 (x : number) : string :=
  match x with
  | S754_finite s m e =>
      if Num.ge (Num.abs x) (Num.of_Z (10 ^ 21))
      then ofNumber x
      else
        let n :=
          if (0 <=? e)%Z then (10 * Zpos m * 2 ^ e)%Z
          else Z.shiftr (20 * Zpos m + 2 ^ (- e)) (- e + 1) in
        let ds := decimal n in
        let ds := if (n <? 10)%Z then ("0" +:+ ds)%string else ds in
        let k := Z.of_nat (String.length ds) in
        (if s then "-" else "") +:+ substring_to (k - 1) ds
          +:+ "." +:+ substring_from (k - 1) ds
  | S754_zero _ => "0.0"
  | _ => ofNumber x
  end%string.

(** *** String to number *)

(** The Number value of the decimal literal [ip.fp] times [10^ex]. *)
Definition decimal_literal (neg : bool) (ip fp : list ascii) (ex : Z) : number :=
  Num.of_decimal neg (value_of 10 (ip ++ fp)) (ex - Z.of_nat (length fp)).

(** [parseInt(ds, 10)] on a non-empty sequence of decimal digits. *)
Definition parseInt_digits (ds : list ascii) : number :=
  Num.of_Z (value_of 10 ds).

(** [StrUnsignedDecimalLiteral], with the sign already read. *)
Definition unsigned_literal (neg : bool) (cs : list ascii) : number :=
  if String.eqb (of_chars cs) "Infinity" then S754_infinity neg
  else
    let '(ip, r1) := span is_digit cs in
    let '(fp, r2) :=
      match r1 with
      | "." :: r => span is_digit r
      | _ => ([], r1)
      end in
    if negb (nonempty ip || nonempty fp) then Num.NaN
    else
      match r2 with
      | [] => decimal_literal neg ip fp 0
      | c :: r3 =>
          if Ascii.eqb c "e" || Ascii.eqb c "E" then
            let '(eneg, r4) :=
              match r3 with
              | "+" :: r => (false, r)
              | "-" :: r => (true, r)
              | _ => (false, r3)
              end in
            if nonempty r4 && forallb is_digit r4
            then decimal_literal neg ip fp (cond_Zopp eneg (value_of 10 r4))
            else Num.NaN
          else Num.NaN
      end.

Definition radix_literal (radix : Z) (ds : list ascii) : number :=
  if nonempty ds && forallb (is_digit_of radix) ds
  then Num.of_Z (value_of radix ds) else Num.NaN.

(** [Number(s)]: [StringToNumber]. *)
Definition toNumber (s : string) : number :=
  match trim_chars (chars s) with
  | [] => Num.zero
  | "+" :: r => unsigned_literal false r
  | "-" :: r => unsigned_literal true r
  | "0" :: c :: r =>
      if Ascii.eqb c "x" || Ascii.eqb c "X" then radix_literal 16 r
      else if Ascii.eqb c "o" || Ascii.eqb c "O" then radix_literal 8 r
      else if Ascii.eqb c "b" || Ascii.eqb c "B" then radix_literal 2 r
      else unsigned_literal false ("0" :: c :: r)
  | cs => unsigned_literal false cs
  end.

Definition starts_with (pre cs : list ascii) : bool :=
  String.eqb (of_chars (take (length pre) cs)) (of_chars pre).

(** [parseFloat(s)]: the longest prefix of [s], after leading white
    space, that is a decimal literal; NaN when there is none. *)
Definition parseFloat (s : string) : number :=
  let cs := drop_spaces (chars s) in
  let '(neg, cs) :=
    match cs with
    | "+" :: r => (false, r)
    | "-" :: r => (true, r)
    | _ => (false, cs)
    end in
  if starts_with (chars "Infinity") cs then S754_infinity neg
  else
    let '(ip, r1) := span is_digit cs in
    let '(fp, r2) :=
      match r1 with
      | "." :: r => span is_digit r
      | _ => ([], r1)
      end in
    if negb (nonempty ip || nonempty fp) then Num.NaN
    else
      let ex :=
        match r2 with
        | c :: r3 =>
            if Ascii.eqb c "e" || Ascii.eqb c "E" then
              let '(eneg, r4) :=
                match r3 with
                | "+" :: r => (false, r)
                | "-" :: r => (true, r)
                | _ => (false, r3)
                end in
              cond_Zopp eneg (value_of 10 (fst (span is_digit r4)))
            else 0%Z
        | [] => 0%Z
        end in
      decimal_literal neg ip fp ex.

(** The string made of one double-quote character. *)
Definition dquote : string := String (ascii_of_nat 34) EmptyString.

End Str.

(** ** Values, completions and the types of [types.ts] *)

(** A completion: the call returns a value, or it throws an [Error]
    with a message. *)
Inductive completion (A : Type) : Type :=
  | Return (a : A)
  | Throw (message : string).
Arguments Return {A} a.
Arguments Throw {A} message.

#[global] Instance completion_ret : MRet completion := @Return.
#[global] Instance completion_bind : MBind completion :=
  fun A B k c => match c with Return a => k a | Throw e => Throw e end.

(** What the code reads as a metric or as a cut: [number | string] by
    its type, [undefined] when a property is missing, and any other
    value ([null], a boolean, an object, or a function such as the
    [constructor] that a plain object inherits).  Of such a value the
    code asks its type, which is neither 'number' nor 'string', hands it
    to the parser, and takes [String(v)], which returns a string or
    throws: [VOther] carries this outcome. *)
Inductive value : Type :=
  | VNum (x : number)
  | VStr (s : string)
  | VUndefined
  | VOther (string_of : completion string).

(** [String(v)] *)
Definition String_of (v : value) : completion string :=
  match v with
  | VNum x => Return (Str.ofNumber x)
  | VStr s => Return s
  | VUndefined => Return "undefined"
  | VOther string_of => string_of
  end.

Record Standard : Type := {
  id : option string;
  label : string;
  cut : value;
  description : option string
}.

(** The object literal [{ label, cut }]. *)
Definition mkStandard (l : string) (c : value) : Standard :=
  {| id := None; label := l; cut := c; description := None |}.

(** The [standards] argument: an array, or any other value. *)
Inductive standardsArg : Type :=
  | notArray
  | array (standards : list Standard).

Inductive Direction : Type := higher | lower.

Module Options.
Inductive direction_option : Type := dir_higher | dir_lower | dir_auto.
Inductive validation_mode : Type := warn | throw.

Record PerformanceOptions : Type := {
  direction : option direction_option;
  levels : option (list string);
  parser : option (value -> completion number);
  formatAbsolute : option (number -> completion string);
  formatRelative : option (number -> completion string);
  validationMode : option validation_mode
}.

(** No [options] argument, or [{}]: every [options?.x] is undefined. *)
Definition none : PerformanceOptions :=
  {| direction := None; levels := None; parser := None;
     formatAbsolute := None; formatRelative := None;
     validationMode := None |}.
End Options.
Export Options(PerformanceOptions).

Module Diff.
Record t : Type := { absolute : number; relative : number }.
End Diff.

Module Formatted.
Record t : Type := { absolute : string; relative : string }.
End Formatted.

Module NextCut.
Record t : Type := { label : string; cut : string }.
End NextCut.

Module Validation.
Record t : Type := { valid : bool; errors : list string }.
End Validation.

(** [PerformanceResult].  [None] is [null], and also a property that the
    object literal leaves out ([standard] and [nextCut]). *)
Module Result.
Record PerformanceResult : Type := {
  label : string;
  index : Z;
  standard : option Standard;
  nextStandard : option Standard;
  nextCut : option NextCut.t;
  diffToNext : option Diff.t;
  diffToNextFormatted : option Formatted.t;
  validation : Validation.t
}.
End Result.
Export Result(PerformanceResult).

(** ** The default parser and formatters *)

Section Regexps.
Import Str.
Local Open Scope char_scope.

(** The optional group [(?:\.(\d+))?$] at the end of a time string. *)
Definition match_fraction (cs : list ascii) : option (option (list ascii)) :=
  match cs with
  | [] => Some None
  | "." :: f => if nonempty f && forallb is_digit f then Some (Some f) else None
  | _ => None
  end.

(** [/^(\d+):([0-5]\d):([0-5]\d)(?:\.(\d+))?$/]: the groups 1 to 4. *)
Definition match_hms (cs : list ascii)
  : option (list ascii * list ascii * list ascii * option (list ascii)) :=
  let '(h, r) := span is_digit cs in
  match r with
  | ":" :: m1 :: m2 :: ":" :: s1 :: s2 :: r' =>
      if nonempty h && is_0_5 m1 && is_digit m2 && is_0_5 s1 && is_digit s2
      then f ← match_fraction r'; Some (h, [m1; m2], [s1; s2], f)
      else None
  | _ => None
  end.

(** [/^(\d+):([0-5]\d)(?:\.(\d+))?$/]: the groups 1 to 3. *)
Definition match_ms (cs : list ascii)
  : option (list ascii * list ascii * option (list ascii)) :=
  let '(m, r) := span is_digit cs in
  match r with
  | ":" :: s1 :: s2 :: r' =>
      if nonempty m && is_0_5 s1 && is_digit s2
      then f ← match_fraction r'; Some (m, [s1; s2], f)
      else None
  | _ => None
  end.

(** [/^(-?\d+)(?:\.(\d+))?$/] *)
Definition match_seconds (cs : list ascii) : bool :=
  let cs := match cs with "-" :: r => r | _ => cs end in
  let '(i, r) := span is_digit cs in
  nonempty i && bool_decide (is_Some (match_fraction r)).

(** [m[k] ? parseFloat('0.' + m[k]) : 0] *)
Definition fraction_of (f : option (list ascii)) : number :=
  match f with
  | Some ds => parseFloat ("0." +:+ of_chars ds)
  | None => Num.zero
  end.
End Regexps.

Definition defaultTimeParser (input : value) : number :=
  match input with
  | VNum x => x
  | VUndefined | VOther _ => Num.NaN
  | VStr input =>
      let s := Str.trim_chars (Str.chars input) in
      match match_hms s with
      | Some (h, m, sec, f) =>
          let hours := Str.parseInt_digits h in
          let minutes := Str.parseInt_digits m in
          let seconds := Str.parseInt_digits sec in
          let fraction := fraction_of f in
          Num.add (Num.add (Num.add (Num.mul hours (Num.of_Z 3600))
                                    (Num.mul minutes (Num.of_Z 60)))
                           seconds)
                  fraction
      | None =>
          match match_ms s with
          | Some (m, sec, f) =>
              let minutes := Str.parseInt_digits m in
              let seconds := Str.parseInt_digits sec in
              let fraction := fraction_of f in
              Num.add (Num.add (Num.mul minutes (Num.of_Z 60)) seconds) fraction
          | None =>
              if match_seconds s then Str.parseFloat (Str.of_chars s)
              else
                let n := Str.toNumber (Str.of_chars s) in
                if Num.isFinite n then n else Num.NaN
          end
      end
  end.

Definition pad2 (n : number) : string := Str.padStart2 (Str.ofNumber n).

Definition defaultFormatAbsolute (value : number) : string :=
  if negb (Num.isFinite value) then Str.ofNumber value
  else
    let sign := if Num.lt value Num.zero then "-" else "" in
    let v := Num.abs value in
    let hours := Num.floor (Num.div v (Num.of_Z 3600)) in
    let minutes := Num.floor (Num.div (Num.rem v (Num.of_Z 3600)) (Num.of_Z 60)) in
    let seconds := Num.floor (Num.rem v (Num.of_Z 60)) in
    let hundredths := Num.round (Num.mul (Num.sub v (Num.floor v)) (Num.of_Z 100)) in
    if Num.gt hours Num.zero then
      sign +:+ Str.ofNumber hours +:+ ":" +:+ pad2 minutes +:+ ":"
        +:+ pad2 seconds +:+ "." +:+ pad2 hundredths
    else if Num.gt minutes Num.zero then
      sign +:+ Str.ofNumber minutes +:+ ":" +:+ pad2 seconds +:+ "."
        +:+ pad2 hundredths
    else
      sign +:+ pad2 seconds +:+ "." +:+ pad2 hundredths.

Definition defaultFormatRelative (percent : number) : string :=
  if negb (Num.isFinite percent) then Str.ofNumber percent
  else Str.toFixed1 percent +:+ "%".

Definition isMatchNum (metric cutNum : number) (direction : Direction) : bool :=
  if Num.isNaN cutNum then false
  else
    match direction with
    | higher => Num.ge metric cutNum
    | lower => Num.le metric cutNum
    end.

(** ** [computePerformance] *)

(** An element of [numericStandards].  The objects of the [standards]
    array are told apart by their position [idx]: [e.std === next] is the
    comparison of the positions.  (An object that the caller puts twice
    in the array has one cut, so the entry found has the same [cutNum].) *)
Record Entry : Type := { idx : nat; std : Standard; cutNum : number }.

(** [Array.prototype.sort(cmp)]: a stable sort, where [cmp(a, b) > 0]
    puts [b] first and NaN counts as 0.  The comparators of this file
    are differences of cuts that are never NaN, which order the entries
    consistently: every stable sort gives this result. *)
Fixpoint insertBy {A} (cmp : A -> A -> number) (x : A) (l : list A) : list A :=
  match l with
  | [] => [x]
  | y :: l' => if Num.gt (cmp x y) Num.zero then y :: insertBy cmp x l' else x :: l
  end.

Definition sortBy {A} (cmp : A -> A -> number) (l : list A) : list A :=
  foldr (insertBy cmp) [] l.

Module Msg.
Import Str.

Definition standards_empty : string := "`standards` must be a non-empty array".
Definition defaulting : string := "; defaulting to " +:+ dquote +:+ "lower" +:+ dquote.
Definition not_monotonic : string :=
  "Auto-direction inference failed: levels cuts are not monotonic" +:+ defaulting.
Definition missing_cuts : string :=
  "Auto-direction inference failed: missing/invalid cuts for some levels" +:+ defaulting.
Definition requires_levels : string :=
  "Auto-direction inference requires `levels`" +:+ defaulting.
Definition duplicate (l : string) : string :=
  "Duplicate standard label '" +:+ l +:+ "' in standards".
Definition level_missing (lvl : string) : string :=
  "Level '" +:+ lvl +:+ "' is declared in options.levels but missing from standards".
Definition unparsable_pair (lowLabel highLabel : string) : string :=
  "Unable to parse cuts for levels '" +:+ lowLabel +:+ "' or '" +:+ highLabel +:+ "'".
Definition ordering (lowLabel : string) (lowCut : number) (rel : string)
    (highLabel : string) (highCut : number) (dir : string) : string :=
  "Ordering violation: level '" +:+ lowLabel +:+ "' (cut=" +:+ ofNumber lowCut
    +:+ ") should be " +:+ rel +:+ " '" +:+ highLabel +:+ "' (cut="
    +:+ ofNumber highCut +:+ ") for direction '" +:+ dir +:+ "'".
Definition validation_errors (errors : list string) : string :=
  "Validation errors: " +:+ String.concat "; " errors.
Definition metric_unparsable : string := "Unable to parse metric into a numeric value".
Definition cut_unparsable (l : string) : string :=
  "Unable to parse cut value for standard '" +:+ l +:+ "'".
Definition next_unparsable : string := "Unable to parse cut value for next standard".
Definition diff_unparsable : string :=
  "Unable to compute diff: next standard cut could not be parsed".
End Msg.

(** [for (const s of standards) labelToStd.set(s.label, s)]: a later
    standard replaces an earlier one with the same label. *)
Definition labelToStd (standards : list Standard) : gmap string Standard :=
  foldl (fun m s => <[label s := s]> m) ∅ standards.

(** The monotonicity loop: [(increasing, decreasing)] after the cuts
    [rest] that follow [prev]. *)
Fixpoint monotonic (prev : number) (rest : list number) (flags : bool * bool)
  : bool * bool :=
  match rest with
  | [] => flags
  | c :: rest' =>
      monotonic c rest' (fst flags && Num.gt c prev, snd flags && Num.lt c prev)
  end.

Definition monotonicity (cuts : list number) : bool * bool :=
  match cuts with
  | [] => (true, true)
  | c0 :: rest => monotonic c0 rest (true, true)
  end.

(** [Math.max(0, d)] and its percentage of the next cut. *)
Definition diffOf (d nextCutNum : number) : Diff.t :=
  let abs := Num.max0 d in
  let denom :=
    if Num.gt (Num.abs nextCutNum) Num.zero then Num.abs nextCutNum
    else Num.of_Z 1 in
  let rel := Num.mul (Num.div abs denom) (Num.of_Z 100) in
  {| Diff.absolute := abs; Diff.relative := rel |}.

Section computePerformance.
Variable parser : value -> completion number.
Variable formatAbsolute : number -> completion string.
Variable formatRelative : number -> completion string.

(** [typeof x === 'number' ? x : parser(x)] *)
Definition numeric (x : value) : completion number :=
  match x with
  | VNum n => Return n
  | _ => parser x
  end.

(** *** Determine direction *)

(** The loop over [options.levels] of the inference: the cuts, or
    [None] once [canInfer] is false. *)
Fixpoint levelCuts (m : gmap string Standard) (lvls : list string)
    (cuts : list number) : completion (option (list number)) :=
  match lvls with
  | [] => Return (Some cuts)
  | lvl :: lvls' =>
      match m !! lvl with
      | None => Return None
      | Some s =>
          match cut s with
          | VUndefined => Return None
          | c =>
              parsed ← numeric c;
              if Num.isNaN parsed then Return None
              else levelCuts m lvls' (cuts ++ [parsed])
          end
      end
  end.

(** The direction, and the errors pushed while it is determined. *)
Definition resolveDirection (standards : list Standard)
    (direction : option Options.direction_option)
    (levels : option (list string)) : completion (Direction * list string) :=
  match direction with
  | Some Options.dir_higher => Return (higher, [])
  | Some Options.dir_lower => Return (lower, [])
  | Some Options.dir_auto =>
      match levels with
      | Some lvls =>
          inferred ← levelCuts (labelToStd standards) lvls [];
          match inferred with
          | Some cuts =>
              let '(increasing, decreasing) := monotonicity cuts in
              if increasing && negb decreasing then Return (higher, [])
              else if decreasing && negb increasing then Return (lower, [])
              else Return (lower, [Msg.not_monotonic])
          | None => Return (lower, [Msg.missing_cuts])
          end
      | None => Return (lower, [Msg.requires_levels])
      end
  | None => Return (lower, [])
  end.

(** *** Validate levels *)

(** The first loop: the map of the labels, and a diagnostic for each
    standard whose label is already in the map. *)
Fixpoint indexLabels (standards : list Standard) (m : gmap string Standard)
    (errors : list string) : gmap string Standard * list string :=
  match standards with
  | [] => (m, errors)
  | s :: rest =>
      let errors :=
        match m !! label s with
        | Some _ => errors ++ [Msg.duplicate (label s)]
        | None => errors
        end in
      indexLabels rest (<[label s := s]> m) errors
  end.

(** The second loop: the levels that are no label of a standard. *)
Fixpoint missingLevels (m : gmap string Standard) (lvls : list string)
    (errors : list string) : list string :=
  match lvls with
  | [] => errors
  | lvl :: rest =>
      missingLevels m rest
        (match m !! lvl with
         | Some _ => errors
         | None => errors ++ [Msg.level_missing lvl]
         end)
  end.

(** The inner loop of the ordering check: [lowLabel] against each of
    the levels after it. *)
Fixpoint checkAgainst (direction : Direction) (m : gmap string Standard)
    (lowLabel : string) (highs : list string) (errors : list string)
  : completion (list string) :=
  match highs with
  | [] => Return errors
  | highLabel :: rest =>
      match m !! lowLabel, m !! highLabel with
      | Some lowStd, Some highStd =>
          lowCut ← numeric (cut lowStd);
          highCut ← numeric (cut highStd);
          if Num.isNaN lowCut || Num.isNaN highCut then
            checkAgainst direction m lowLabel rest
              (errors ++ [Msg.unparsable_pair lowLabel highLabel])
          else
            match direction with
            | lower =>
                checkAgainst direction m lowLabel rest
                  (if negb (Num.gt lowCut highCut)
                   then errors ++ [Msg.ordering lowLabel lowCut ">" highLabel highCut "lower"]
                   else errors)
            | higher =>
                checkAgainst direction m lowLabel rest
                  (if negb (Num.lt lowCut highCut)
                   then errors ++ [Msg.ordering lowLabel lowCut "<" highLabel highCut "higher"]
                   else errors)
            end
      | _, _ => checkAgainst direction m lowLabel rest errors
      end
  end.

(** The outer loop: every level against the levels after it. *)
Fixpoint checkOrdering (direction : Direction) (m : gmap string Standard)
    (lvls : list string) (errors : list string) : completion (list string) :=
  match lvls with
  | [] => Return errors
  | lowLabel :: rest =>
      errors ← checkAgainst direction m lowLabel rest errors;
      checkOrdering direction m rest errors
  end.

Definition validateLevels (direction : Direction) (standards : list Standard)
    (levels : option (list string)) (errors : list string)
  : completion (list string) :=
  match levels with
  | Some lvls =>
      let '(m, errors) := indexLabels standards ∅ errors in
      let errors := missingLevels m lvls errors in
      checkOrdering direction m lvls errors
  | None => Return errors
  end.

(** *** Parse metric and standards into numeric values *)

(** The loop that fills [numericStandards], from position [i] on. *)
Fixpoint parseStandards (i : nat) (standards : list Standard)
    (errors : list string) : completion (list Entry * list string) :=
  match standards with
  | [] => Return ([], errors)
  | s :: rest =>
      cutNum ← numeric (cut s);
      let errors :=
        if Num.isNaN cutNum then errors ++ [Msg.cut_unparsable (label s)]
        else errors in
      '(entries, errors) ← parseStandards (S i) rest errors;
      Return ({| idx := i; std := s; cutNum := cutNum |} :: entries, errors)
  end.

(** *** The next standard and the difference to it *)

(** The first of the standards with a finite cut beyond [reference],
    nearest first. *)
Definition nextBetter (direction : Direction) (numericStandards : list Entry)
    (reference : number) : option Entry :=
  match direction with
  | higher =>
      head (sortBy (fun a b => Num.sub (cutNum a) (cutNum b))
              (List.filter (fun e => Num.isFinite (cutNum e) && Num.gt (cutNum e) reference)
                 numericStandards))
  | lower =>
      head (sortBy (fun a b => Num.sub (cutNum b) (cutNum a))
              (List.filter (fun e => Num.isFinite (cutNum e) && Num.lt (cutNum e) reference)
                 numericStandards))
  end.

(** [numericStandards.find((e) => e.std === next)], and its [cutNum]
    or NaN. *)
Definition cutNumOf (numericStandards : list Entry) (next : Entry) : number :=
  match find (fun e => Nat.eqb (idx e) (idx next)) numericStandards with
  | Some nextEntry => cutNum nextEntry
  | None => Num.NaN
  end.

Definition directedDiff (direction : Direction) (nextCutNum metricNum : number)
  : Diff.t :=
  match direction with
  | higher => diffOf (Num.sub nextCutNum metricNum) nextCutNum
  | lower => diffOf (Num.sub metricNum nextCutNum) nextCutNum
  end.

Definition format (diff : Diff.t) : completion Formatted.t :=
  a ← formatAbsolute (Diff.absolute diff);
  r ← formatRelative (Diff.relative diff);
  Return {| Formatted.absolute := a; Formatted.relative := r |}.

Definition buildNextCutObject (s : option Standard) : completion (option NextCut.t) :=
  match s with
  | None => Return None
  | Some s =>
      let cutRaw := cut s in
      parsed ← numeric cutRaw;
      cutStr ←
        match cutRaw with
        | VStr c => Return c
        | _ =>
            if Num.isFinite parsed then formatAbsolute parsed
            else String_of cutRaw
        end;
      Return (Some {| NextCut.label := label s; NextCut.cut := cutStr |})
  end.

(** The branch [matches.length === 0]. *)
Definition unmatched (direction : Direction) (numericStandards : list Entry)
    (metricNum : number) (errors : list string) : completion PerformanceResult :=
  let nextBest :=
    if Num.isFinite metricNum
    then nextBetter direction numericStandards metricNum
    else None in
  '(diff, formatted, errors) ←
    match nextBest with
    | Some next =>
        if Num.isFinite metricNum then
          let nextCutNum := cutNumOf numericStandards next in
          if Num.isFinite nextCutNum then
            let diff := directedDiff direction nextCutNum metricNum in
            formatted ← format diff;
            Return (Some diff, Some formatted, errors)
          else Return (None, None, errors ++ [Msg.next_unparsable])
        else Return (None, None, errors)
    | None => Return (None, None, errors)
    end;
  nextCut ← buildNextCutObject (std <$> nextBest);
  Return {| Result.label := "unknown";
            Result.index := -1;
            Result.standard := None;
            Result.nextStandard := std <$> nextBest;
            Result.nextCut := nextCut;
            Result.diffToNext := diff;
            Result.diffToNextFormatted := formatted;
            Result.validation :=
              {| Validation.valid := bool_decide (errors = []);
                 Validation.errors := errors |} |}.

(** The rest of the function, for the best match. *)
Definition matched (direction : Direction) (numericStandards : list Entry)
    (metricNum : number) (bestMatch : Entry) (errors : list string)
  : completion PerformanceResult :=
  let currentCutNum := cutNum bestMatch in
  let next := nextBetter direction numericStandards currentCutNum in
  let '(diff, errors) :=
    match next with
    | Some next =>
        let nextCutNum := cutNumOf numericStandards next in
        if Num.isFinite nextCutNum && Num.isFinite metricNum
        then (Some (directedDiff direction nextCutNum metricNum), errors)
        else (None, errors ++ [Msg.diff_unparsable])
    | None => (None, errors)
    end in
  formatted ←
    match diff with
    | Some diff => formatted ← format diff; Return (Some formatted)
    | None => Return None
    end;
  nextCut ← buildNextCutObject (std <$> next);
  Return {| Result.label := label (std bestMatch);
            Result.index := Z.of_nat (idx bestMatch);
            Result.standard := Some (std bestMatch);
            Result.nextStandard := std <$> next;
            Result.nextCut := nextCut;
            Result.diffToNext := diff;
            Result.diffToNextFormatted := formatted;
            Result.validation :=
              {| Validation.valid := bool_decide (errors = []);
                 Validation.errors := errors |} |}.

(** The result for a [standards] that is no array, or an empty one. *)
Definition noStandards : PerformanceResult :=
  {| Result.label := "unknown";
     Result.index := -1;
     Result.standard := None;
     Result.nextStandard := None;
     Result.nextCut := None;
     Result.diffToNext := None;
     Result.diffToNextFormatted := None;
     Result.validation :=
       {| Validation.valid := false;
          Validation.errors := [Msg.standards_empty] |} |}.

(** The function from the line that fixes [parser] on. *)
Definition computeWith (metric : value) (standards : list Standard)
    (direction : option Options.direction_option)
    (levels : option (list string))
    (validationMode : option Options.validation_mode)
  : completion PerformanceResult :=
  '(direction, errors) ← resolveDirection standards direction levels;
  errors ← validateLevels direction standards levels errors;
  match validationMode, errors with
  | Some Options.throw, _ :: _ => Throw (Msg.validation_errors errors)
  | _, _ =>
      metricNum ← numeric metric;
      let errors :=
        if Num.isNaN metricNum then errors ++ [Msg.metric_unparsable]
        else errors in
      '(numericStandards, errors) ← parseStandards 0 standards errors;
      let matches :=
        List.filter (fun e => negb (Num.isNaN (cutNum e))
                              && negb (Num.isNaN metricNum)
                              && isMatchNum metricNum (cutNum e) direction)
          numericStandards in
      match matches with
      | [] => unmatched direction numericStandards metricNum errors
      | first :: _ =>
          let sorted :=
            match direction with
            | higher => sortBy (fun a b => Num.sub (cutNum b) (cutNum a)) matches
            | lower => sortBy (fun a b => Num.sub (cutNum a) (cutNum b)) matches
            end in
          let bestMatch := List.hd first sorted in
          matched direction numericStandards metricNum bestMatch errors
      end
  end.
End computePerformance.

(** The parser and the formatters of the module, as the hooks that
    [options] can replace: they never throw. *)
Definition defaultParser (input : value) : completion number :=
  Return (defaultTimeParser input).
Definition defaultAbsolute (x : number) : completion string :=
  Return (defaultFormatAbsolute x).
Definition defaultRelative (x : number) : completion string :=
  Return (defaultFormatRelative x).

(** [options?.parser ?? defaultTimeParser] *)
Definition parserOf (options : PerformanceOptions) : value -> completion number :=
  default defaultParser (Options.parser options).

Definition computePerformance (metric : value) (standards : standardsArg)
    (options : PerformanceOptions) : completion PerformanceResult :=
  match standards with
  | notArray | array [] => Return noStandards
  | array standards =>
      let parser := parserOf options in
      let formatAbsolute := default defaultAbsolute (Options.formatAbsolute options) in
      let formatRelative := default defaultRelative (Options.formatRelative options) in
      computeWith parser formatAbsolute formatRelative metric standards
        (Options.direction options) (Options.levels options)
        (Options.validationMode options)
  end.

(** ** The transformer of swimming standards *)

(** A [Record<string, string>], as the transformer reads it:
    - [own]: its own enumerable properties, in the order in which
      [Object.keys] lists them, with the strings they hold;
    - [inherited]: what reading any other name gives, that is the
      property found along the prototype chain, or [undefined] when
      there is none. *)
Record mapping : Type := {
  own : list (string * string);
  inherited : string -> value
}.

(** The own property [l] among [props], if there is one. *)
Fixpoint ownProperty (props : list (string * string)) (l : string)
  : option string :=
  match props with
  | [] => None
  | (k, v) :: props' => if String.eqb k l then Some v else ownProperty props' l
  end.

(** [mapping[label]]: the own property, and otherwise what the
    prototype chain gives. *)
Definition get (m : mapping) (l : string) : value :=
  match ownProperty (own m) l with
  | Some v => VStr v
  | None => inherited m l
  end.

(** [Object.keys(mapping)] *)
Definition keys (m : mapping) : list string := map fst (own m).

Definition transformSwimmingStandards (m : mapping)
    (levelsOrder : option (list string)) : list Standard :=
  match levelsOrder with
  | Some ((_ :: _) as levelsOrder) =>
      map (fun l => mkStandard l (get m l)) levelsOrder
  | _ => map (fun l => mkStandard l (get m l)) (keys m)
  end.

(** What an object literal inherits from [Object.prototype]: the
    function [Object] as [constructor], the methods of the prototype,
    and the prototype itself as [__proto__]; [String] prints a native
    function with its name, and the prototype as an object. *)
Definition nativeFunction (name : string) : value :=
  VOther (Return ("function " +:+ name +:+ "() { [native code] }")).

Definition objectPrototype (name : string) : value :=
  if String.eqb name "constructor" then nativeFunction "Object"
  else if String.eqb name "__proto__" then VOther (Return "[object Object]")
  else if existsb (String.eqb name)
            ["__defineGetter__"; "__defineSetter__"; "hasOwnProperty";
             "__lookupGetter__"; "__lookupSetter__"; "isPrototypeOf";
             "propertyIsEnumerable"; "toString"; "valueOf"; "toLocaleString"]
  then nativeFunction name
  else VUndefined.

(** The object literal with the properties [props]. *)
Definition objectLiteral (props : list (string * string)) : mapping :=
  {| own := props; inherited := objectPrototype |}.

(** ** Notions of the specification *)

(** The cuts are strictly increasing throughout: each one is above the
    one before it. *)
Fixpoint increasing_throughout (cuts : list number) : bool :=
  match cuts with
  | c0 :: ((c1 :: _) as rest) => Num.gt c1 c0 && increasing_throughout rest
  | _ => true
  end.

(** The cuts are strictly decreasing throughout. *)
Fixpoint decreasing_throughout (cuts : list number) : bool :=
  match cuts with
  | c0 :: ((c1 :: _) as rest) => Num.lt c1 c0 && decreasing_throughout rest
  | _ => true
  end.

(** The level [lvl] resolves to a standard whose cut parses to [c]. *)
Definition resolves (parser : value -> completion number)
    (standards : list Standard) (lvl : string) (c : number) : Prop :=
  exists s, labelToStd standards !! lvl = Some s
            /\ cut s <> VUndefined
            /\ numeric parser (cut s) = Return c
            /\ Num.isNaN c = false.

(** The level [lvl] is missing from the standards, or its cut is
    unparsable. *)
Definition unresolved (parser : value -> completion number)
    (standards : list Standard) (lvl : string) : Prop :=
  match labelToStd standards !! lvl with
  | None => True
  | Some s => cut s = VUndefined \/ numeric parser (cut s) = Return Num.NaN
  end.

(** The denominator of the relative difference: [|nextCut|], or 1 for a
    next cut that is zero. *)
Definition denominator (nextCut : number) : number :=
  match nextCut with
  | S754_zero _ => Num.of_Z 1
  | _ => Num.abs nextCut
  end.

(** The difference to the next cut as the specification gives it. *)
Definition specDiff (direction : Direction) (nextCut metric : number) : Diff.t :=
  let absolute :=
    Num.max0 (match direction with
              | higher => Num.sub nextCut metric
              | lower => Num.sub metric nextCut
              end) in
  {| Diff.absolute := absolute;
     Diff.relative :=
       Num.mul (Num.div absolute (denominator nextCut)) (Num.of_Z 100) |}.

(** The last of the standards labelled [l]. *)
Definition lastLabelled (l : string) (standards : list Standard) : option Standard :=
  last (List.filter (fun s => String.eqb (label s) l) standards).

(** The first of the standards labelled [l]. *)
Definition firstLabelled (l : string) (standards : list Standard) : option Standard :=
  head (List.filter (fun s => String.eqb (label s) l) standards).

(** How many of the standards are labelled [l]. *)
Definition labelled (l : string) (standards : list Standard) : nat :=
  count_occ string_dec (map label standards) l.

(** How many times the diagnostic [msg] is in the list of errors. *)
Definition reported (msg : string) (errors : list string) : nat :=
  count_occ string_dec errors msg.

(** A diagnostic that is not the one of a duplicate label. *)
Definition other (msg : string) : Prop := forall l, msg <> Msg.duplicate l.

(** The list of errors [errs'] is [errs] followed by diagnostics that are
    not about duplicates. *)
Definition grows (errs errs' : list string) : Prop :=
  exists more, errs' = errs ++ more /\ Forall other more.

(** *** The kinds of diagnostics *)

(** A diagnostic of the inference of the direction. *)
Definition direction_diag (msg : string) : Prop :=
  msg = Msg.not_monotonic \/ msg = Msg.missing_cuts \/ msg = Msg.requires_levels.

(** A diagnostic of a duplicate label. *)
Definition duplicate_diag (msg : string) : Prop :=
  exists l, msg = Msg.duplicate l.

(** A diagnostic of the ordering check of two levels. *)
Definition ordering_diag (msg : string) : Prop :=
  (exists lowLabel highLabel, msg = Msg.unparsable_pair lowLabel highLabel)
  \/ (exists lowLabel lowCut rel highLabel highCut dir,
        msg = Msg.ordering lowLabel lowCut rel highLabel highCut dir).

(** The label [l] is no key of the map. *)
Definition absent (m : gmap string Standard) (l : string) : bool :=
  match m !! l with
  | Some _ => false
  | None => true
  end.

(** The diagnostics of the levels that are missing from the standards,
    in the order of the levels. *)
Definition missingDiags (standards : list Standard) (lvls : list string)
  : list string :=
  map Msg.level_missing (List.filter (absent (labelToStd standards)) lvls).

(** The diagnostics of the cuts that parsed to NaN, in the order of the
    standards. *)
Definition unparsableCuts (entries : list Entry) : list string :=
  map (fun e => Msg.cut_unparsable (label (std e)))
    (List.filter (fun e => Num.isNaN (cutNum e)) entries).

(** The diagnostic of an unparsable metric, if it is one. *)
Definition unparsableMetric (metricNum : number) : list string :=
  if Num.isNaN metricNum then [Msg.metric_unparsable] else [].

(** The diagnostic of a difference that cannot be computed: there is a
    next standard and the metric is not finite. *)
Definition diffDiag (next : option Entry) (metricNum : number) : list string :=
  match next with
  | Some _ => if Num.isFinite metricNum then [] else [Msg.diff_unparsable]
  | None => []
  end.

(** The standards that the metric matches, as entries. *)
Definition matchesOf (direction : Direction) (metricNum : number)
    (entries : list Entry) : list Entry :=
  List.filter (fun e => negb (Num.isNaN (cutNum e))
                        && negb (Num.isNaN metricNum)
                        && isMatchNum metricNum (cutNum e) direction)
    entries.

(** [x] is beyond [reference] in the direction: above it under 'higher',
    below it under 'lower'. *)
Definition beyond (direction : Direction) (x reference : number) : bool :=
  match direction with
  | higher => Num.gt x reference
  | lower => Num.lt x reference
  end.

(** The last diagnostic of a result: the one of a difference that is
    not computed although there is a next standard. *)
Definition tailDiag (r : PerformanceResult) : list string :=
  match Result.nextStandard r, Result.diffToNext r with
  | Some _, None => [Msg.diff_unparsable]
  | _, _ => []
  end.

(** The diagnostics of the missing levels of a call. *)
Definition missingOf (options : PerformanceOptions) (standards : list Standard)
  : list string :=
  match Options.levels options with
  | Some lvls => missingDiags standards lvls
  | None => []
  end.

(** The diagnostic that the ordering check pushes for the levels
    [lowLabel] before [highLabel], whose cuts parse to [lowCut] and
    [highCut], if it pushes one. *)
Definition pairDiag (direction : Direction) (lowLabel : string) (lowCut : number)
    (highLabel : string) (highCut : number) : option string :=
  if Num.isNaN lowCut || Num.isNaN highCut
  then Some (Msg.unparsable_pair lowLabel highLabel)
  else
    match direction with
    | lower =>
        if Num.gt lowCut highCut then None
        else Some (Msg.ordering lowLabel lowCut ">" highLabel highCut "lower")
    | higher =>
        if Num.lt lowCut highCut then None
        else Some (Msg.ordering lowLabel lowCut "<" highLabel highCut "higher")
    end.

(** The hook never throws. *)
Definition returns {A B} (f : A -> completion B) : Prop :=
  forall a, exists b, f a = Return b.

(** The rendering of a whole number of seconds below one hour, as the
    documentation of the default formatter gives it: [SS.00], or
    [M:SS.00] from one minute on. *)
Definition two_digits (n : Z) : string :=
  if (n <? 10)%Z then "0" +:+ Str.decimal n else Str.decimal n.

Definition clock (n : Z) : string :=
  let m := (n / 60)%Z in
  let s := (n mod 60)%Z in
  if (0 <? m)%Z then Str.decimal m +:+ ":" +:+ two_digits s +:+ ".00"
  else two_digits s +:+ ".00".

(** [f] holds of the integers from 0 up to [k], excluded. *)
Fixpoint all_below (f : Z -> bool) (k : nat) : bool :=
  match k with
  | O => true
  | S k' => f (Z.of_nat k') && all_below f k'
  end.

(** The Number that is nearest to [n] hundredths. *)
Definition hundredths (n : Z) : number := Num.div (Num.of_Z n) (Num.of_Z 100).

(** The formatter prints [n] hundredths as [SS.dd], and the parser reads
    this string back as the same Number. *)
Definition round_trip (n : Z) : bool :=
  let printed := defaultFormatAbsolute (hundredths n) in
  String.eqb printed (two_digits (n / 100) +:+ "." +:+ two_digits (n mod 100))
  && Num.same (defaultTimeParser (VStr printed)) (hundredths n).

(** The formatter prints [n] whole seconds as the clock shows them, and
    the parser reads this string back as [n]. *)
Definition clock_trip (n : Z) : bool :=
  let printed := defaultFormatAbsolute (Num.of_Z n) in
  String.eqb printed (clock n)
  && Num.same (defaultTimeParser (VStr printed)) (Num.of_Z n).

(** ** Inputs of the scenarios *)

Module Scenario.
Definition num (z : Z) : value := VNum (Num.of_Z z).

Definition timeStandards : list Standard :=
  [mkStandard "Fast" (num 30); mkStandard "Moderate" (num 60);
   mkStandard "Slow" (VNum Num.Infinity)].

Definition withMode (mode : Options.validation_mode) : PerformanceOptions :=
  {| Options.direction := None; Options.levels := None;
     Options.parser := None; Options.formatAbsolute := None;
     Options.formatRelative := None; Options.validationMode := Some mode |}.

Definition withParser (p : value -> completion number) : PerformanceOptions :=
  {| Options.direction := None; Options.levels := None;
     Options.parser := Some p; Options.formatAbsolute := None;
     Options.formatRelative := None; Options.validationMode := None |}.

Definition withLevels (d : option Options.direction_option) (lvls : list string)
  : PerformanceOptions :=
  {| Options.direction := d; Options.levels := Some lvls;
     Options.parser := None; Options.formatAbsolute := None;
     Options.formatRelative := None; Options.validationMode := None |}.

(** The result of scenario 3. *)
Definition slowResult : PerformanceResult :=
  {| Result.label := "Slow";
     Result.index := 2;
     Result.standard := Some (mkStandard "Slow" (VNum Num.Infinity));
     Result.nextStandard := Some (mkStandard "Moderate" (num 60));
     Result.nextCut :=
       Some {| NextCut.label := "Moderate"; NextCut.cut := "1:00.00" |};
     Result.diffToNext :=
       Some {| Diff.absolute := Num.of_Z 90; Diff.relative := Num.of_Z 150 |};
     Result.diffToNextFormatted :=
       Some {| Formatted.absolute := "1:30.00"; Formatted.relative := "150.0%" |};
     Result.validation :=
       {| Validation.valid := true; Validation.errors := [] |} |}.

(** The result for the metric 15 and the standards Low '10', High '20',
    with direction 'auto' and the single level Low. *)
Definition singleLevelResult : PerformanceResult :=
  {| Result.label := "High";
     Result.index := 1;
     Result.standard := Some (mkStandard "High" (VStr "20"));
     Result.nextStandard := Some (mkStandard "Low" (VStr "10"));
     Result.nextCut := Some {| NextCut.label := "Low"; NextCut.cut := "10" |};
     Result.diffToNext :=
       Some {| Diff.absolute := Num.of_Z 5; Diff.relative := Num.of_Z 50 |};
     Result.diffToNextFormatted :=
       Some {| Formatted.absolute := "05.00"; Formatted.relative := "50.0%" |};
     Result.validation :=
       {| Validation.valid := false;
          Validation.errors := [Msg.not_monotonic] |} |}.

(** The standards of the test of an ordering violation: Average is above
    Good. *)
Definition badThresholds : list Standard :=
  [mkStandard "Excellent" (num 90); mkStandard "Good" (num 80);
   mkStandard "Average" (num 85); mkStandard "Poor" (num 0)].

(** The options of the scenarios 1, 2 and 4: direction 'higher'. *)
Definition higherOptions : PerformanceOptions :=
  {| Options.direction := Some Options.dir_higher; Options.levels := None;
     Options.parser := None; Options.formatAbsolute := None;
     Options.formatRelative := None; Options.validationMode := None |}.

(** The result of scenario 4: the metric -1000 and the standard Positive
    with cut 0, under 'higher'. *)
Definition positiveResult : PerformanceResult :=
  {| Result.label := "unknown";
     Result.index := -1;
     Result.standard := None;
     Result.nextStandard := Some (mkStandard "Positive" (num 0));
     Result.nextCut := Some {| NextCut.label := "Positive"; NextCut.cut := "00.00" |};
     Result.diffToNext :=
       Some {| Diff.absolute := Num.of_Z 1000; Diff.relative := Num.of_Z 100000 |};
     Result.diffToNextFormatted :=
       Some {| Formatted.absolute := "16:40.00"; Formatted.relative := "100000.0%" |};
     Result.validation :=
       {| Validation.valid := true; Validation.errors := [] |} |}.

(** The options of scenario 5: an ordering violation, in throw mode. *)
Definition scenario5 : PerformanceOptions :=
  {| Options.direction := Some Options.dir_higher;
     Options.levels := Some ["B"; "A"];
     Options.parser := None; Options.formatAbsolute := None;
     Options.formatRelative := None;
     Options.validationMode := Some Options.throw |}.

(** The parser of the test of a parser that throws. *)
Definition boomParser (_ : value) : completion number := Throw "boom parser".

Definition lowHigh : list Standard :=
  [mkStandard "Low" (VStr "10"); mkStandard "High" (VStr "20")].

Definition dup : list Standard :=
  [mkStandard "Dup" (VStr "10"); mkStandard "Dup" (VStr "20")].

Definition swimJson : mapping :=
  objectLiteral
    [("AAAA", "57.09"); ("AAA", "59.79"); ("AA", "1:02.49");
     ("A", "1:05.19"); ("BB", "1:10.59"); ("B", "1:16.09")]%string.

Definition levelsOrder : list string :=
  ["B"; "BB"; "A"; "AA"; "AAA"; "AAAA"]%string.
End Scenario.

(** ** Lemmas on numbers *)

Lemma SFcompare_antisym (x y : number) :
  SFcompare y x = CompOpp <$> SFcompare x y.
Proof.
  destruct x as [sx|sx| |sx mx ex], y as [sy|sy| |sy my ey]; simpl;
    try reflexivity; try (destruct sx; reflexivity);
    try (destruct sy; reflexivity); try (destruct sx, sy; reflexivity).
  destruct sx, sy; simpl; try reflexivity; f_equal.
  - rewrite (Z.compare_antisym ey ex).
    destruct (ey ?= ex)%Z; simpl; try reflexivity.
    rewrite (Pos.compare_cont_antisym mx my Eq). reflexivity.
  - rewrite (Z.compare_antisym ey ex).
    destruct (ey ?= ex)%Z; simpl; try reflexivity.
    rewrite (Pos.compare_cont_antisym mx my Eq). reflexivity.
Qed.

Lemma gt_not_lt (x y : number) : Num.gt x y = true -> Num.lt x y = false.
Proof.
  unfold Num.gt, Num.lt, SFltb. rewrite (SFcompare_antisym y x).
  destruct (SFcompare y x) as [[]|]; simpl; congruence.
Qed.

Lemma lt_not_gt (x y : number) : Num.lt x y = true -> Num.gt x y = false.
Proof.
  intros H. destruct (Num.gt x y) eqn:G; [|reflexivity].
  apply gt_not_lt in G. congruence.
Qed.

(** For a finite next cut, the test [Math.abs(c) > 0] of the code picks
    the denominator of the specification. *)
Lemma denominator_code (c : number) :
  Num.isFinite c = true ->
  (if Num.gt (Num.abs c) Num.zero then Num.abs c else Num.of_Z 1) = denominator c.
Proof. destruct c as [s|s| |s m e]; simpl; try discriminate; reflexivity. Qed.

Lemma directedDiff_spec (direction : Direction) (c m : number) :
  Num.isFinite c = true -> directedDiff direction c m = specDiff direction c m.
Proof.
  intros Hc. unfold directedDiff, specDiff, diffOf.
  destruct direction; cbv zeta; rewrite (denominator_code c Hc); reflexivity.
Qed.

(** ** Lemmas on completions and on sorting *)

Lemma bind_Return {A B} (c : completion A) (k : A -> completion B) (b : B) :
  c ≫= k = Return b -> exists a, c = Return a /\ k a = Return b.
Proof. destruct c; simpl; [eauto | discriminate]. Qed.

Ltac inv_bind H :=
  let a := fresh "a" in
  let Ha := fresh "Hret" in
  apply bind_Return in H as (a & Ha & H).

Lemma insertBy_In {A} (cmp : A -> A -> number) (x y : A) (l : list A) :
  In y (insertBy cmp x l) -> y = x \/ In y l.
Proof.
  induction l as [|z l IH]; simpl.
  - intros [->|[]]. now left.
  - destruct (Num.gt (cmp x z) Num.zero); simpl.
    + intros [->|H]; [right; now left|].
      destruct (IH H) as [->|H']; [now left | right; now right].
    + intros [->|H]; [now left | now right].
Qed.

Lemma sortBy_In {A} (cmp : A -> A -> number) (y : A) (l : list A) :
  In y (sortBy cmp l) -> In y l.
Proof.
  induction l as [|x l IH]; simpl; [tauto|].
  intros H. apply insertBy_In in H as [->|H]; [now left | right; auto].
Qed.

Lemma sortBy_nil_inv {A} (cmp : A -> A -> number) (l : list A) :
  sortBy cmp l = [] -> l = [].
Proof.
  destruct l as [|x l]; [reflexivity|]. simpl.
  destruct (sortBy cmp l) as [|z l']; simpl; [discriminate|].
  destruct (Num.gt (cmp x z) Num.zero); discriminate.
Qed.

Lemma head_In {A} (l : list A) (x : A) : head l = Some x -> In x l.
Proof. destruct l; simpl; [discriminate|]. intros [= ->]. now left. Qed.

Lemma hd_sortBy_In {A} (cmp : A -> A -> number) (first : A) (l : list A) :
  In first l -> In (List.hd first (sortBy cmp l)) l.
Proof.
  intros Hin. destruct (sortBy cmp l) as [|b l'] eqn:Hs; [exact Hin|].
  apply (sortBy_In cmp). rewrite Hs. now left.
Qed.

Lemma nextBetter_spec (direction : Direction) (entries : list Entry)
    (reference : number) (e : Entry) :
  nextBetter direction entries reference = Some e ->
  In e entries /\ Num.isFinite (cutNum e) = true.
Proof.
  unfold nextBetter. destruct direction; intros H;
    apply head_In, sortBy_In, filter_In in H as [Hin Hp];
    apply andb_true_iff in Hp as [Hfin _]; auto.
Qed.

(** ** Lemmas on the diagnostics *)

Ltac other_msg := intros ? ?; discriminate.

Lemma other_not_monotonic : other Msg.not_monotonic.
Proof. other_msg. Qed.
Lemma other_missing_cuts : other Msg.missing_cuts.
Proof. other_msg. Qed.
Lemma other_requires_levels : other Msg.requires_levels.
Proof. other_msg. Qed.
Lemma other_level_missing lvl : other (Msg.level_missing lvl).
Proof. other_msg. Qed.
Lemma other_unparsable_pair a b : other (Msg.unparsable_pair a b).
Proof. other_msg. Qed.
Lemma other_ordering a x rel b y dir : other (Msg.ordering a x rel b y dir).
Proof. other_msg. Qed.
Lemma other_metric_unparsable : other Msg.metric_unparsable.
Proof. other_msg. Qed.
Lemma other_cut_unparsable l : other (Msg.cut_unparsable l).
Proof. other_msg. Qed.
Lemma other_next_unparsable : other Msg.next_unparsable.
Proof. other_msg. Qed.
Lemma other_diff_unparsable : other Msg.diff_unparsable.
Proof. other_msg. Qed.

Create HintDb diag.

#[local] Hint Resolve other_not_monotonic other_missing_cuts
  other_requires_levels other_level_missing other_unparsable_pair
  other_ordering other_metric_unparsable other_cut_unparsable
  other_next_unparsable other_diff_unparsable : diag.

Lemma grows_refl errs : grows errs errs.
Proof. exists []. split; [now rewrite app_nil_r | constructor]. Qed.

Lemma grows_trans a b c : grows a b -> grows b c -> grows a c.
Proof.
  intros (m1 & -> & F1) (m2 & -> & F2). exists (m1 ++ m2).
  split; [now rewrite app_assoc | now apply Forall_app].
Qed.

Lemma grows_push errs msg : other msg -> grows errs (errs ++ [msg]).
Proof. intros H. exists [msg]. split; [reflexivity | now repeat constructor]. Qed.

Lemma grows_push_if (b : bool) errs msg :
  other msg -> grows errs (if b then errs ++ [msg] else errs).
Proof. destruct b; [apply grows_push | intros; apply grows_refl]. Qed.

#[local] Hint Resolve grows_refl grows_push grows_push_if : diag.

Lemma reported_app msg a b : reported msg (a ++ b) = (reported msg a + reported msg b)%nat.
Proof. apply count_occ_app. Qed.

Lemma reported_others l more : Forall other more -> reported (Msg.duplicate l) more = 0%nat.
Proof.
  intros F. apply count_occ_not_In. intros Hin.
  rewrite Forall_forall in F. apply list_elem_of_In in Hin.
  exact (F _ Hin l eq_refl).
Qed.

Lemma grows_reported l errs errs' :
  grows errs errs' -> reported (Msg.duplicate l) errs' = reported (Msg.duplicate l) errs.
Proof.
  intros (more & -> & F). rewrite reported_app, (reported_others l more F). lia.
Qed.

Lemma string_length_app (a b : string) :
  String.length (a +:+ b) = (String.length a + String.length b)%nat.
Proof. induction a as [|x a IH]; simpl; [reflexivity | now rewrite IH]. Qed.

Lemma append_cancel_r (a b c : string) : a +:+ c = b +:+ c -> a = b.
Proof.
  revert b. induction a as [|x a IH]; intros [|y b] H.
  - reflexivity.
  - apply (f_equal String.length) in H.
    rewrite !string_length_app in H. simpl in H. lia.
  - apply (f_equal String.length) in H.
    rewrite !string_length_app in H. simpl in H. lia.
  - change (String x (a +:+ c) = String y (b +:+ c)) in H.
    injection H as -> H. f_equal. now apply IH.
Qed.

Lemma duplicate_inj (l l' : string) : Msg.duplicate l = Msg.duplicate l' -> l = l'.
Proof.
  unfold Msg.duplicate. intros H.
  apply (inj (String.app _)) in H. now apply append_cancel_r in H.
Qed.

Lemma reported_duplicate_one (l0 l : string) :
  reported (Msg.duplicate l) [Msg.duplicate l0] = if decide (l0 = l) then 1%nat else 0%nat.
Proof.
  unfold reported. destruct (decide (l0 = l)) as [->|Hne].
  - now rewrite count_occ_cons_eq.
  - rewrite count_occ_cons_neq; [reflexivity|].
    intros H. now apply duplicate_inj in H.
Qed.

(** ** Lemmas on the map of the labels *)

Lemma labelled_cons (l : string) (s : Standard) (rest : list Standard) :
  labelled l (s :: rest)
  = if decide (label s = l) then S (labelled l rest) else labelled l rest.
Proof.
  unfold labelled. simpl map. destruct (decide (label s = l)) as [E|E].
  - now rewrite count_occ_cons_eq.
  - now rewrite count_occ_cons_neq.
Qed.

Lemma lastLabelled_cons (l : string) (s : Standard) (rest : list Standard) :
  lastLabelled l (s :: rest)
  = match lastLabelled l rest with
    | Some x => Some x
    | None => if decide (label s = l) then Some s else None
    end.
Proof.
  unfold lastLabelled. simpl List.filter.
  destruct (decide (label s = l)) as [E|E].
  - apply String.eqb_eq in E. rewrite E. rewrite last_cons.
    now destruct (last _).
  - apply String.eqb_neq in E. rewrite E. now destruct (last _).
Qed.

Lemma foldl_insert_lookup (standards : list Standard) (m : gmap string Standard)
    (l : string) :
  foldl (fun m s => <[label s := s]> m) m standards !! l
  = match lastLabelled l standards with
    | Some s => Some s
    | None => m !! l
    end.
Proof.
  revert m. induction standards as [|s rest IH]; intros m; [reflexivity|].
  simpl foldl. rewrite IH, lastLabelled_cons.
  destruct (lastLabelled l rest); [reflexivity|].
  destruct (decide (label s = l)) as [<-|E].
  - apply lookup_insert_eq.
  - now apply lookup_insert_ne.
Qed.

Lemma labelToStd_last (standards : list Standard) (l : string) :
  labelToStd standards !! l = lastLabelled l standards.
Proof.
  unfold labelToStd. rewrite foldl_insert_lookup, lookup_empty.
  now destruct (lastLabelled l standards).
Qed.

Lemma labelToStd_In (standards : list Standard) (l : string) (s : Standard) :
  labelToStd standards !! l = Some s -> In s standards /\ label s = l.
Proof.
  rewrite labelToStd_last. unfold lastLabelled. intros H.
  apply last_Some_elem_of, list_elem_of_In, filter_In in H as [Hin E].
  split; [assumption | now apply String.eqb_eq].
Qed.

Lemma indexLabels_spec (standards : list Standard) (m : gmap string Standard)
    (errs : list string) :
  fst (indexLabels standards m errs)
  = foldl (fun m s => <[label s := s]> m) m standards
  /\ exists dups,
      snd (indexLabels standards m errs) = errs ++ dups
      /\ forall l, reported (Msg.duplicate l) dups
                   = match m !! l with
                     | Some _ => labelled l standards
                     | None => (labelled l standards - 1)%nat
                     end.
Proof.
  revert m errs. induction standards as [|s rest IH]; intros m errs.
  - split; [reflexivity|]. exists []. split; [now rewrite app_nil_r|].
    intros l. now destruct (m !! l).
  - simpl indexLabels. simpl foldl.
    set (errs1 := match m !! label s with
                  | Some _ => errs ++ [Msg.duplicate (label s)]
                  | None => errs
                  end).
    destruct (IH (<[label s := s]> m) errs1) as (Hm & dups & Hd & Hcount).
    split; [exact Hm|].
    exists (match m !! label s with
            | Some _ => [Msg.duplicate (label s)]
            | None => []
            end ++ dups).
    split.
    + rewrite Hd. unfold errs1. destruct (m !! label s).
      * now rewrite <- app_assoc.
      * reflexivity.
    + intros l. rewrite reported_app, Hcount, labelled_cons.
      destruct (decide (label s = l)) as [<-|E].
      * rewrite lookup_insert_eq. destruct (m !! label s).
        -- rewrite reported_duplicate_one. rewrite decide_True by reflexivity.
           reflexivity.
        -- simpl. lia.
      * rewrite lookup_insert_ne by assumption.
        assert (reported (Msg.duplicate l)
                  match m !! label s with
                  | Some _ => [Msg.duplicate (label s)]
                  | None => []
                  end = 0%nat) as ->.
        { destruct (m !! label s); [|reflexivity].
          rewrite reported_duplicate_one. now rewrite decide_False. }
        reflexivity.
Qed.

Lemma indexLabels_map (standards : list Standard) (errs : list string) :
  fst (indexLabels standards ∅ errs) = labelToStd standards.
Proof. apply indexLabels_spec. Qed.

(** ** Lemmas on the stages of [computePerformance] *)

Section Stages.
Variable parser : value -> completion number.
Variable formatAbsolute : number -> completion string.
Variable formatRelative : number -> completion string.

Lemma resolveDirection_others standards direction levels dir errs :
  resolveDirection parser standards direction levels = Return (dir, errs) ->
  Forall other errs.
Proof.
  unfold resolveDirection.
  destruct direction as [[]|]; try (intros [= <- <-]; constructor).
  destruct levels as [lvls|]; [|intros [= <- <-]; repeat constructor; auto with diag].
  intros H. inv_bind H. destruct a as [cuts|].
  - destruct (monotonicity cuts) as [[] []]; simpl in H;
      injection H as <- <-; repeat constructor; auto with diag.
  - injection H as <- <-. repeat constructor; auto with diag.
Qed.

Lemma missingLevels_grows m lvls errs : grows errs (missingLevels m lvls errs).
Proof.
  revert errs. induction lvls as [|lvl rest IH]; intros errs; simpl.
  - apply grows_refl.
  - eapply grows_trans; [|apply IH].
    destruct (m !! lvl); auto with diag.
Qed.

Lemma checkAgainst_grows dir m lowLabel highs errs errs' :
  checkAgainst parser dir m lowLabel highs errs = Return errs' -> grows errs errs'.
Proof.
  revert errs. induction highs as [|highLabel rest IH]; intros errs H; simpl in H.
  - injection H as <-. apply grows_refl.
  - destruct (m !! lowLabel) as [lowStd|]; [|now apply IH].
    destruct (m !! highLabel) as [highStd|]; [|now apply IH].
    inv_bind H. rename a into lowCut. inv_bind H. rename a into highCut.
    destruct (Num.isNaN lowCut || Num.isNaN highCut).
    + apply IH in H. eapply grows_trans; [|exact H]. auto with diag.
    + destruct dir; apply IH in H; (eapply grows_trans; [|exact H]);
        auto with diag.
Qed.

Lemma checkOrdering_grows dir m lvls errs errs' :
  checkOrdering parser dir m lvls errs = Return errs' -> grows errs errs'.
Proof.
  revert errs. induction lvls as [|lowLabel rest IH]; intros errs H; simpl in H.
  - injection H as <-. apply grows_refl.
  - inv_bind H. apply checkAgainst_grows in Hret. apply IH in H.
    eapply grows_trans; eassumption.
Qed.

Lemma validateLevels_spec dir standards lvls errs errs' :
  validateLevels parser dir standards (Some lvls) errs = Return errs' ->
  exists dups,
    grows (errs ++ dups) errs'
    /\ forall l, reported (Msg.duplicate l) dups = (labelled l standards - 1)%nat.
Proof.
  unfold validateLevels.
  destruct (indexLabels_spec standards ∅ errs) as (_ & dups & Hd & Hcount).
  destruct (indexLabels standards ∅ errs) as [m errs1]. simpl in Hd. subst errs1.
  intros H. apply checkOrdering_grows in H.
  exists dups. split.
  - eapply grows_trans; [apply missingLevels_grows | exact H].
  - intros l. rewrite Hcount. now rewrite lookup_empty.
Qed.

Lemma validateLevels_grows_none dir standards errs errs' :
  validateLevels parser dir standards None errs = Return errs' -> errs' = errs.
Proof. now intros [= <-]. Qed.

Lemma parseStandards_spec i standards errs entries errs' :
  parseStandards parser i standards errs = Return (entries, errs') ->
  map idx entries = seq i (length standards)
  /\ Forall (fun e => In (std e) standards
                      /\ numeric parser (cut (std e)) = Return (cutNum e)) entries
  /\ grows errs errs'.
Proof.
  revert i errs entries errs'.
  induction standards as [|s rest IH]; intros i errs entries errs' H; simpl in H.
  - injection H as <- <-. repeat split; [constructor | apply grows_refl].
  - inv_bind H. rename a into c. inv_bind H. destruct a as [entries0 errs0].
    injection H as <- <-.
    apply IH in Hret0 as (Hidx & Hall & Hgrow).
    split; [simpl; now rewrite Hidx|]. split.
    + constructor; [simpl; split; [now left | assumption]|].
      eapply Forall_impl; [exact Hall|].
      simpl. intros e [Hin Hnum]. split; [now right | assumption].
    + eapply grows_trans; [|exact Hgrow]. auto with diag.
Qed.

Lemma find_idx (entries : list Entry) (e : Entry) :
  NoDup (map idx entries) -> In e entries ->
  find (fun e' => Nat.eqb (idx e') (idx e)) entries = Some e.
Proof.
  induction entries as [|x rest IH]; simpl; [tauto|].
  intros Hnd [->|Hin].
  - now rewrite Nat.eqb_refl.
  - apply NoDup_cons in Hnd as [Hx Hnd].
    destruct (Nat.eqb (idx x) (idx e)) eqn:E; [|now apply IH].
    apply Nat.eqb_eq in E. exfalso. apply Hx. rewrite E.
    apply list_elem_of_In, in_map, Hin.
Qed.

Lemma cutNumOf_In (entries : list Entry) (e : Entry) :
  NoDup (map idx entries) -> In e entries -> cutNumOf entries e = cutNum e.
Proof. intros Hnd Hin. unfold cutNumOf. now rewrite find_idx. Qed.

Abbreviation errorsOf r := (Validation.errors (Result.validation r)).

Lemma buildNextCutObject_some s nc :
  buildNextCutObject parser formatAbsolute (Some s) = Return nc ->
  exists c, numeric parser (cut s) = Return c.
Proof. simpl. intros H. inv_bind H. eauto. Qed.

Lemma unmatched_inv dir entries m errs r :
  NoDup (map idx entries) ->
  unmatched parser formatAbsolute formatRelative dir entries m errs = Return r ->
  Result.standard r = None
  /\ grows errs (errorsOf r)
  /\ forall next, Result.nextStandard r = Some next ->
       exists e, In e entries /\ std e = next
                 /\ Num.isFinite (cutNum e) = true
                 /\ Num.isFinite m = true
                 /\ Result.diffToNext r = Some (directedDiff dir (cutNum e) m).
Proof.
  intros Hnd H. unfold unmatched in H.
  destruct (Num.isFinite m) eqn:Hm.
  - destruct (nextBetter dir entries m) as [e|] eqn:Hn.
    + destruct (nextBetter_spec _ _ _ _ Hn) as [Hin Hfin].
      rewrite (cutNumOf_In _ _ Hnd Hin), Hfin in H.
      inv_bind H. destruct a as [[diff formatted] errs0].
      inv_bind Hret. injection Hret as <- <- <-.
      inv_bind H. injection H as <-. simpl.
      repeat split; [apply grows_refl|].
      intros next [= <-]. exists e. auto.
    + simpl in H. injection H as <-. simpl.
      repeat split; [apply grows_refl | discriminate].
  - simpl in H. injection H as <-. simpl.
    repeat split; [apply grows_refl | discriminate].
Qed.

Lemma matched_inv dir entries m best errs r :
  NoDup (map idx entries) ->
  matched parser formatAbsolute formatRelative dir entries m best errs = Return r ->
  Result.standard r = Some (std best)
  /\ grows errs (errorsOf r)
  /\ forall next, Result.nextStandard r = Some next ->
       exists e, In e entries /\ std e = next
                 /\ Num.isFinite (cutNum e) = true
                 /\ Result.diffToNext r
                    = if Num.isFinite m
                      then Some (directedDiff dir (cutNum e) m) else None.
Proof.
  intros Hnd H. unfold matched in H.
  destruct (nextBetter dir entries (cutNum best)) as [e|] eqn:Hn.
  - destruct (nextBetter_spec _ _ _ _ Hn) as [Hin Hfin].
    rewrite (cutNumOf_In _ _ Hnd Hin), Hfin in H. simpl andb in H.
    destruct (Num.isFinite m) eqn:Hm.
    + inv_bind H. inv_bind Hret. injection Hret as <-.
      inv_bind H. injection H as <-. simpl.
      repeat split; [apply grows_refl|].
      intros next [= <-]. exists e. auto.
    + inv_bind H. injection Hret as <-.
      inv_bind H. injection H as <-. simpl.
      repeat split; [auto with diag|].
      intros next [= <-]. exists e. auto.
  - inv_bind H. injection Hret as <-. inv_bind H. injection H as <-. simpl.
    repeat split; [apply grows_refl | discriminate].
Qed.

(** What a call that returns went through. *)
Lemma computeWith_inv metric standards direction levels mode r :
  computeWith parser formatAbsolute formatRelative metric standards
    direction levels mode = Return r ->
  exists dir errs1 errs2 metricNum entries errs3,
    resolveDirection parser standards direction levels = Return (dir, errs1)
    /\ validateLevels parser dir standards levels errs1 = Return errs2
    /\ (mode = Some Options.throw -> errs2 = [])
    /\ numeric parser metric = Return metricNum
    /\ parseStandards parser 0 standards
         (if Num.isNaN metricNum then errs2 ++ [Msg.metric_unparsable] else errs2)
       = Return (entries, errs3)
    /\ (unmatched parser formatAbsolute formatRelative dir entries metricNum errs3
        = Return r
        \/ exists best,
             In best entries /\ Num.isNaN (cutNum best) = false
             /\ matched parser formatAbsolute formatRelative dir entries
                  metricNum best errs3 = Return r).
Proof.
  unfold computeWith. intros H.
  inv_bind H. destruct a as [dir errs1].
  inv_bind H. rename a into errs2.
  assert (Hmode : mode = Some Options.throw -> errs2 = []).
  { intros ->. destruct errs2; [reflexivity | discriminate]. }
  assert (H' :
    (metricNum ← numeric parser metric;
     let errors :=
       if Num.isNaN metricNum then errs2 ++ [Msg.metric_unparsable] else errs2 in
     '(numericStandards, errors) ← parseStandards parser 0 standards errors;
     let matches :=
       List.filter (fun e => negb (Num.isNaN (cutNum e))
                             && negb (Num.isNaN metricNum)
                             && isMatchNum metricNum (cutNum e) dir)
         numericStandards in
     match matches with
     | [] => unmatched parser formatAbsolute formatRelative dir numericStandards
               metricNum errors
     | first :: _ =>
         let sorted :=
           match dir with
           | higher => sortBy (fun a b => Num.sub (cutNum b) (cutNum a)) matches
           | lower => sortBy (fun a b => Num.sub (cutNum a) (cutNum b)) matches
           end in
         let bestMatch := List.hd first sorted in
         matched parser formatAbsolute formatRelative dir numericStandards
           metricNum bestMatch errors
     end) = Return r).
  { destruct mode as [[]|]; [exact H | | exact H].
    destruct errs2; [exact H | discriminate]. }
  clear H. inv_bind H'. rename a into metricNum.
  cbv zeta in H'. inv_bind H'. destruct a as [entries errs3].
  exists dir, errs1, errs2, metricNum, entries, errs3.
  repeat (split; [assumption|]).
  remember (List.filter (fun e => negb (Num.isNaN (cutNum e))
                                  && negb (Num.isNaN metricNum)
                                  && isMatchNum metricNum (cutNum e) dir)
              entries) as matches eqn:Hmatches.
  destruct matches as [|first rest]; [now left|].
  assert (Hsub : forall x, In x (first :: rest) ->
                   In x entries /\ Num.isNaN (cutNum x) = false).
  { intros x Hx. rewrite Hmatches in Hx. apply filter_In in Hx as [Hx Hp].
    split; [assumption|].
    apply andb_true_iff in Hp as [Hp _]. apply andb_true_iff in Hp as [Hp _].
    now apply negb_true_iff in Hp. }
  right. eexists. split; [|split; [|exact H']];
    apply Hsub; destruct dir; apply hd_sortBy_In; now left.
Qed.
End Stages.

Abbreviation errorsOf r := (Validation.errors (Result.validation r)).

Lemma computePerformance_inv metric standards options r :
  computePerformance metric (array standards) options = Return r ->
  (standards = [] /\ r = noStandards)
  \/ computeWith (parserOf options)
       (default defaultAbsolute (Options.formatAbsolute options))
       (default defaultRelative (Options.formatRelative options))
       metric standards (Options.direction options) (Options.levels options)
       (Options.validationMode options) = Return r.
Proof.
  unfold computePerformance. destruct standards as [|s rest].
  - intros [= <-]. now left.
  - intros H. now right.
Qed.

(** ** Properties of the specification *)

(** C1.  A custom parser that raises is not caught: in the call of the
    test "custom parser that throws should be caught and reported", the
    exception of the parser leaves [computePerformance]; no result is
    returned and no "Parser error" diagnostic is made. *)
Theorem C1_throwing_parser_propagates :
  computePerformance (VStr "12") (array [mkStandard "A" (VStr "10")])
    (Scenario.withParser Scenario.boomParser)
  = Throw "boom parser".
Proof. reflexivity. Qed.

(** C2.  With [validationMode: 'throw'] the diagnostics of the parsing
    stage do not raise: the call of the test "validationMode throw still
    throws when enabled" returns a result that carries the diagnostic of
    the unparsable cut.  A diagnostic of the validation of the levels
    does raise (scenario 5), with the message of the diagnostics. *)
Theorem C2_throw_mode_returns_on_unparsable_cut :
  computePerformance (Scenario.num 12)
    (array [mkStandard "A" (VStr "not-a-number")])
    (Scenario.withMode Options.throw)
  = Return
      {| Result.label := "unknown";
         Result.index := -1;
         Result.standard := None;
         Result.nextStandard := None;
         Result.nextCut := None;
         Result.diffToNext := None;
         Result.diffToNextFormatted := None;
         Result.validation :=
           {| Validation.valid := false;
              Validation.errors := ["Unable to parse cut value for standard 'A'"] |} |}
  /\ computePerformance (Scenario.num 7)
       (array [mkStandard "A" (VStr "10"); mkStandard "B" (VStr "50")])
       Scenario.scenario5
     = Throw ("Validation errors: Ordering violation: level 'B' (cut=50) "
              +:+ "should be < 'A' (cut=10) for direction 'higher'").
Proof. split; vm_compute; reflexivity. Qed.

(** C3.  Scenario 3: with the time standards Fast 30, Moderate 60, Slow
    Infinity and no options, the metric '2:30.00' parses to 150 and the
    result is Slow (index 2), with next standard Moderate, an absolute
    difference of 90 formatted "1:30.00", and a relative difference of
    150 formatted "150.0%". *)
Theorem C3_scenario_3 :
  defaultTimeParser (VStr "2:30.00") = Num.of_Z 150
  /\ computePerformance (VStr "2:30.00") (array Scenario.timeStandards) Options.none
     = Return Scenario.slowResult
  /\ Result.label Scenario.slowResult = "Slow"
  /\ label <$> Result.nextStandard Scenario.slowResult = Some "Moderate"
  /\ Diff.absolute <$> Result.diffToNext Scenario.slowResult = Some (Num.of_Z 90)
  /\ Result.diffToNextFormatted Scenario.slowResult
     = Some {| Formatted.absolute := "1:30.00"; Formatted.relative := "150.0%" |}.
Proof. split; [|split; [|repeat split]]; vm_compute; reflexivity. Qed.

(** C6.  For a [standards] that is no array, or an empty one, the call
    returns the result 'unknown', index -1, not valid, whatever the
    options are: also with [validationMode: 'throw'], where it does not
    raise. *)
Theorem C6_no_standards_returns (metric : value) (options : PerformanceOptions) :
  computePerformance metric notArray options = Return noStandards
  /\ computePerformance metric (array []) options = Return noStandards
  /\ Result.label noStandards = "unknown"
  /\ Result.index noStandards = (-1)%Z
  /\ Validation.valid (Result.validation noStandards) = false.
Proof. repeat split. Qed.

(** C8.  The default absolute formatter does not carry a rounding of the
    hundredths up to 100: 0.999 is rendered with three fractional
    digits. *)
Theorem C8_hundredths_overflow :
  defaultFormatAbsolute (Num.of_decimal false 999 (-3)) = "00.100"
  /\ defaultFormatAbsolute (Num.of_decimal false 59999 (-3)) = "59.100"
  /\ defaultFormatAbsolute (Num.of_decimal false 3599999 (-3)) = "59:59.100".
Proof. split; [|split]; vm_compute; reflexivity. Qed.

Lemma ownProperty_In (props : list (string * string)) (l v : string) :
  NoDup (map fst props) -> In (l, v) props -> ownProperty props l = Some v.
Proof.
  induction props as [|[k w] props IH]; simpl; [tauto|].
  intros Hnd [[= -> ->]|Hin].
  - now rewrite String.eqb_refl.
  - apply NoDup_cons in Hnd as [Hk Hnd].
    destruct (String.eqb k l) eqn:E; [|now apply IH].
    apply String.eqb_eq in E. subst k. exfalso. apply Hk.
    apply list_elem_of_In. change l with (fst (l, v)). now apply in_map.
Qed.

Lemma ownProperty_none (props : list (string * string)) (l : string) :
  ~ In l (map fst props) -> ownProperty props l = None.
Proof.
  induction props as [|[k v] props IH]; simpl; [reflexivity|].
  intros Hno. destruct (String.eqb k l) eqn:E.
  - apply String.eqb_eq in E. tauto.
  - apply IH. tauto.
Qed.

Lemma get_In (m : mapping) (l v : string) :
  NoDup (keys m) -> In (l, v) (own m) -> get m l = VStr v.
Proof.
  intros Hnd Hin. unfold get. now rewrite (ownProperty_In _ _ _ Hnd Hin).
Qed.

Lemma get_inherited (m : mapping) (l : string) :
  ~ In l (keys m) -> get m l = inherited m l.
Proof. intros Hno. unfold get. now rewrite (ownProperty_none _ _ Hno). Qed.

(** C9.  With a level order that is not empty, the transformer returns
    one standard per level, in the order of the levels: the labels are
    the levels, and each cut is what reading the label from the mapping
    gives, as it is.  For a label that is an own key of the mapping this
    is the string that the mapping holds; for any other label it is what
    the mapping inherits for that name: [undefined] when there is
    nothing, and for instance the function [Object] for the label
    'constructor' and an object literal. *)
Theorem C9_transformer_follows_levels (m : mapping) (levelsOrder : list string) :
  levelsOrder <> [] ->
  map label (transformSwimmingStandards m (Some levelsOrder)) = levelsOrder
  /\ map cut (transformSwimmingStandards m (Some levelsOrder))
     = map (get m) levelsOrder
  /\ (forall i l,
        levelsOrder !! i = Some l ->
        transformSwimmingStandards m (Some levelsOrder) !! i
        = Some (mkStandard l (get m l)))
  /\ (NoDup (keys m) ->
      forall s v,
        In s (transformSwimmingStandards m (Some levelsOrder)) ->
        In (label s, v) (own m) -> cut s = VStr v)
  /\ (forall s,
        In s (transformSwimmingStandards m (Some levelsOrder)) ->
        ~ In (label s) (keys m) -> cut s = inherited m (label s)).
Proof.
  intros Hne. destruct levelsOrder as [|l0 rest]; [contradiction|].
  unfold transformSwimmingStandards.
  split; [|split; [|split; [|split]]].
  - rewrite map_map. simpl. f_equal. apply map_id.
  - now rewrite map_map.
  - intros i l Hl. change (map ?f ?x) with (f <$> x).
    now rewrite list_lookup_fmap, Hl.
  - intros Hnd s v Hs Hv. apply in_map_iff in Hs as (l & <- & _).
    simpl in *. now apply get_In.
  - intros s Hs Hno. apply in_map_iff in Hs as (l & <- & _).
    simpl in *. now apply get_inherited.
Qed.

Lemma C9_transformer_follows_levels_witness :
  Scenario.levelsOrder <> []
  /\ map label (transformSwimmingStandards Scenario.swimJson (Some Scenario.levelsOrder))
     = Scenario.levelsOrder
  /\ map cut (transformSwimmingStandards Scenario.swimJson (Some Scenario.levelsOrder))
     = map (get Scenario.swimJson) Scenario.levelsOrder.
Proof.
  assert (H : Scenario.levelsOrder <> []) by discriminate.
  pose proof (C9_transformer_follows_levels Scenario.swimJson Scenario.levelsOrder H)
    as (Hlabels & Hcuts & _).
  split; [exact H|]. split; [exact Hlabels | exact Hcuts].
Defined.

(** ** The difference to the next standard *)

Lemma max0_not_negative (x : number) : Num.lt (Num.max0 x) Num.zero = false.
Proof.
  unfold Num.max0. destruct (Num.isNaN x); [reflexivity|].
  destruct (Num.gt x Num.zero) eqn:G; [now apply gt_not_lt | reflexivity].
Qed.

(** What a call that returned a next standard did: the next standard is
    an entry of [numericStandards] with a finite cut, and the difference
    is the one of the code when the metric is finite, and null when not. *)
Lemma nextStandard_inv metric standards options r next :
  computePerformance metric (array standards) options = Return r ->
  Result.nextStandard r = Some next ->
  exists dir errs m c,
    resolveDirection (parserOf options) standards (Options.direction options)
      (Options.levels options) = Return (dir, errs)
    /\ numeric (parserOf options) metric = Return m
    /\ numeric (parserOf options) (cut next) = Return c
    /\ In next standards
    /\ Num.isFinite c = true
    /\ Result.diffToNext r
       = if Num.isFinite m then Some (directedDiff dir c m) else None.
Proof.
  intros Hcall Hnext.
  apply computePerformance_inv in Hcall as [[_ ->]|Hcall]; [discriminate|].
  apply computeWith_inv in Hcall
    as (dir & errs1 & errs2 & m & entries & errs3 & Hdir & _ & _ & Hm & Hparse & Hres).
  apply parseStandards_spec in Hparse as (Hidx & Hall & _).
  assert (Hnd : NoDup (map idx entries)) by (rewrite Hidx; apply NoDup_seq).
  rewrite Forall_forall in Hall.
  exists dir, errs1, m.
  destruct Hres as [Hres|(best & _ & _ & Hres)].
  - apply unmatched_inv in Hres as (_ & _ & Hres); [|exact Hnd].
    destruct (Hres next Hnext) as (e & Hin & <- & Hfin & Hmfin & Hdiff).
    destruct (Hall e (proj2 (list_elem_of_In _ _) Hin)) as [Hstd Hnum].
    exists (cutNum e). rewrite Hmfin. auto 10.
  - apply matched_inv in Hres as (_ & _ & Hres); [|exact Hnd].
    destruct (Hres next Hnext) as (e & Hin & <- & Hfin & Hdiff).
    destruct (Hall e (proj2 (list_elem_of_In _ _) Hin)) as [Hstd Hnum].
    exists (cutNum e). auto 10.
Qed.

(** C5, as stated, fails: the metric [Infinity] is a number, the next
    standard Moderate exists and its cut 60 is a number, and there is no
    difference to it. *)
Lemma C5_infinite_metric_counterexample :
  exists r,
    computePerformance (VNum Num.Infinity) (array Scenario.timeStandards) Options.none
    = Return r
    /\ Result.nextStandard r = Some (mkStandard "Moderate" (Scenario.num 60))
    /\ Num.isNaN Num.Infinity = false
    /\ Num.isNaN (Num.of_Z 60) = false
    /\ Result.diffToNext r = None.
Proof. eexists. split; [vm_compute; reflexivity|]. repeat split. Qed.

(** C5, amended.  Whenever a next standard exists, its cut is finite,
    and for a finite metric the difference to it is
    [max(0, nextCut - metric)] under 'higher' and [max(0, metric - nextCut)]
    under 'lower', never negative, with the relative difference
    [(absolute / denom) * 100], where [denom] is [|nextCut|] or 1 for a
    next cut of zero; this holds for a matched and for an unmatched
    metric.  For a metric that is not finite there is no difference. *)
Theorem C5_diff_to_next metric standards options r dir errs next m c :
  computePerformance metric (array standards) options = Return r ->
  resolveDirection (parserOf options) standards (Options.direction options)
    (Options.levels options) = Return (dir, errs) ->
  Result.nextStandard r = Some next ->
  numeric (parserOf options) metric = Return m ->
  numeric (parserOf options) (cut next) = Return c ->
  Num.isFinite c = true
  /\ Result.diffToNext r
     = (if Num.isFinite m then Some (specDiff dir c m) else None)
  /\ Num.lt (Diff.absolute (specDiff dir c m)) Num.zero = false.
Proof.
  intros Hcall Hdir Hnext Hm Hc.
  destruct (nextStandard_inv _ _ _ _ _ Hcall Hnext)
    as (dir' & errs' & m' & c' & Hdir' & Hm' & Hc' & _ & Hfin & Hdiff).
  rewrite Hdir in Hdir'. injection Hdir' as <- <-.
  rewrite Hm in Hm'. injection Hm' as <-.
  rewrite Hc in Hc'. injection Hc' as <-.
  repeat split.
  - exact Hfin.
  - rewrite Hdiff. now rewrite directedDiff_spec.
  - apply max0_not_negative.
Qed.

Lemma C5_diff_to_next_witness :
  Result.diffToNext Scenario.slowResult
  = Some (specDiff lower (Num.of_Z 60) (Num.of_Z 150)).
Proof.
  refine (proj1 (proj2
    (C5_diff_to_next (VStr "2:30.00") Scenario.timeStandards Options.none
       Scenario.slowResult lower [] (mkStandard "Moderate" (Scenario.num 60))
       (Num.of_Z 150) (Num.of_Z 60) _ _ _ _ _)));
    vm_compute; reflexivity.
Defined.

(** ** The next standard has a finite cut *)

(** C10.  The matched standard is one whose cut is not NaN, and it can be
    one whose cut is infinite (Slow, in scenario 3); a next standard, for
    a matched and for an unmatched metric, is one whose cut is finite. *)
Theorem C10_next_standard_is_finite metric standards options r :
  computePerformance metric (array standards) options = Return r ->
  (forall s, Result.standard r = Some s ->
     exists c, numeric (parserOf options) (cut s) = Return c
               /\ Num.isNaN c = false)
  /\ (forall next, Result.nextStandard r = Some next ->
        exists c, numeric (parserOf options) (cut next) = Return c
                  /\ Num.isFinite c = true)
  /\ (computePerformance (VStr "2:30.00") (array Scenario.timeStandards) Options.none
      = Return Scenario.slowResult
      /\ Result.standard Scenario.slowResult
         = Some (mkStandard "Slow" (VNum Num.Infinity))
      /\ Num.isFinite Num.Infinity = false).
Proof.
  intros Hcall. split; [|split].
  - intros s Hs.
    apply computePerformance_inv in Hcall as [[_ ->]|Hcall]; [discriminate|].
    apply computeWith_inv in Hcall
      as (dir & errs1 & errs2 & m & entries & errs3 & _ & _ & _ & _ & Hparse & Hres).
    apply parseStandards_spec in Hparse as (Hidx & Hall & _).
    assert (Hnd : NoDup (map idx entries)) by (rewrite Hidx; apply NoDup_seq).
    rewrite Forall_forall in Hall.
    destruct Hres as [Hres|(best & Hin & Hnan & Hres)].
    + apply unmatched_inv in Hres as (Hnone & _); [|exact Hnd]. congruence.
    + apply matched_inv in Hres as (Hsome & _); [|exact Hnd].
      rewrite Hs in Hsome. injection Hsome as ->.
      destruct (Hall best (proj2 (list_elem_of_In _ _) Hin)) as [_ Hnum].
      eauto.
  - intros next Hnext.
    destruct (nextStandard_inv _ _ _ _ _ Hcall Hnext)
      as (_ & _ & _ & c & _ & _ & Hc & _ & Hfin & _).
    eauto.
  - split; [vm_compute; reflexivity | split; reflexivity].
Qed.

Lemma C10_next_standard_is_finite_witness :
  exists c, numeric defaultParser (Scenario.num 60) = Return c
            /\ Num.isFinite c = true.
Proof.
  assert (H : computePerformance (VStr "2:30.00") (array Scenario.timeStandards)
                Options.none = Return Scenario.slowResult)
    by (vm_compute; reflexivity).
  exact (proj1 (proj2 (C10_next_standard_is_finite _ _ _ _ H))
           (mkStandard "Moderate" (Scenario.num 60)) eq_refl).
Defined.

(** ** The diagnostics of a call *)

(** The errors of a result: those of the direction, the duplicates that
    the validation of the levels found, and diagnostics that are not
    about duplicates. *)
Lemma errors_of_call metric standards options r :
  standards <> [] ->
  computePerformance metric (array standards) options = Return r ->
  exists dir errs dups,
    resolveDirection (parserOf options) standards (Options.direction options)
      (Options.levels options) = Return (dir, errs)
    /\ grows (errs ++ dups) (errorsOf r)
    /\ forall l, reported (Msg.duplicate l) dups
                 = match Options.levels options with
                   | Some _ => (labelled l standards - 1)%nat
                   | None => 0%nat
                   end.
Proof.
  intros Hne Hcall.
  apply computePerformance_inv in Hcall as [[-> _]|Hcall]; [contradiction|].
  apply computeWith_inv in Hcall
    as (dir & errs1 & errs2 & m & entries & errs3 & Hdir & Hval & _ & _ & Hparse & Hres).
  apply parseStandards_spec in Hparse as (Hidx & _ & Hgrow3).
  assert (Hnd : NoDup (map idx entries)) by (rewrite Hidx; apply NoDup_seq).
  assert (Hgrow4 : grows errs3 (errorsOf r)).
  { destruct Hres as [Hres|(best & _ & _ & Hres)].
    - now apply unmatched_inv in Hres as (_ & Hg & _).
    - now apply matched_inv in Hres as (_ & Hg & _). }
  assert (Hgrow : grows errs2 (errorsOf r)).
  { eapply grows_trans; [|exact Hgrow4]. eapply grows_trans; [|exact Hgrow3].
    destruct (Num.isNaN m); auto with diag. }
  exists dir, errs1. destruct (Options.levels options) as [lvls|].
  - apply validateLevels_spec in Hval as (dups & Hg & Hcount).
    exists dups. repeat split; [assumption | | assumption].
    eapply grows_trans; eassumption.
  - apply validateLevels_grows_none in Hval as ->.
    exists []. rewrite app_nil_r. repeat split; assumption.
Qed.

(** ** Duplicate labels *)

(** C7, as stated, fails: without [levels] the two standards labelled
    Dup give no diagnostic, and the map of the labels holds the second
    of them, not the first. *)
Lemma C7_no_levels_counterexample :
  labelled "Dup" Scenario.dup = 2%nat
  /\ (exists r,
        computePerformance (Scenario.num 15) (array Scenario.dup) Options.none
        = Return r
        /\ errorsOf r = [])
  /\ labelToStd Scenario.dup !! "Dup" = Some (mkStandard "Dup" (VStr "20"))
  /\ firstLabelled "Dup" Scenario.dup = Some (mkStandard "Dup" (VStr "10")).
Proof.
  split; [reflexivity|]. split; [|split; vm_compute; reflexivity].
  eexists. split; [vm_compute; reflexivity | reflexivity].
Qed.

(** C7, amended.  In the result of a call with a [levels] option, the
    diagnostic of a duplicate label is there once for each repeat of the
    label among the standards; in the result of a call without [levels]
    it is not there.  The lookup of a label resolves to the last of the
    standards with that label. *)
Theorem C7_duplicates_with_levels metric standards options r l :
  computePerformance metric (array standards) options = Return r ->
  reported (Msg.duplicate l) (errorsOf r)
  = match Options.levels options with
    | Some _ => (labelled l standards - 1)%nat
    | None => 0%nat
    end
  /\ labelToStd standards !! l = lastLabelled l standards
  /\ fst (indexLabels standards ∅ []) !! l = lastLabelled l standards.
Proof.
  intros Hcall. split; [|split].
  - destruct standards as [|s rest].
    + injection Hcall as <-. now destruct (Options.levels options).
    + apply errors_of_call in Hcall as (dir & errs & dups & Hdir & Hg & Hcount);
        [|discriminate].
      apply resolveDirection_others in Hdir.
      rewrite (grows_reported l _ _ Hg), reported_app, Hcount.
      now rewrite (reported_others l errs Hdir).
  - apply labelToStd_last.
  - rewrite indexLabels_map. apply labelToStd_last.
Qed.

Lemma C7_duplicates_with_levels_witness :
  exists r,
    computePerformance (Scenario.num 15) (array Scenario.dup)
      (Scenario.withLevels None ["Dup"]) = Return r
    /\ reported (Msg.duplicate "Dup") (errorsOf r) = 1%nat.
Proof.
  eexists. split; [vm_compute; reflexivity|].
  refine (proj1 (C7_duplicates_with_levels (Scenario.num 15) Scenario.dup
                   (Scenario.withLevels None ["Dup"]) _ "Dup" _)).
  vm_compute. reflexivity.
Defined.

(** ** The inference of the direction *)

Lemma monotonic_spec (prev : number) (rest : list number) (inc dec : bool) :
  monotonic prev rest (inc, dec)
  = (inc && increasing_throughout (prev :: rest),
     dec && decreasing_throughout (prev :: rest)).
Proof.
  revert prev inc dec. induction rest as [|c rest IH]; intros prev inc dec.
  - simpl. now rewrite !andb_true_r.
  - simpl monotonic. rewrite IH.
    change (increasing_throughout (prev :: c :: rest))
      with (Num.gt c prev && increasing_throughout (c :: rest)).
    change (decreasing_throughout (prev :: c :: rest))
      with (Num.lt c prev && decreasing_throughout (c :: rest)).
    now rewrite !andb_assoc.
Qed.

Lemma monotonicity_spec (cuts : list number) :
  monotonicity cuts = (increasing_throughout cuts, decreasing_throughout cuts).
Proof. destruct cuts as [|c0 rest]; [reflexivity|]. apply monotonic_spec. Qed.

Lemma increasing_not_decreasing (cuts : list number) :
  (2 <= length cuts)%nat ->
  increasing_throughout cuts = true -> decreasing_throughout cuts = false.
Proof.
  destruct cuts as [|c0 [|c1 rest]]; simpl length; try lia.
  intros _ H.
  change (Num.gt c1 c0 && increasing_throughout (c1 :: rest) = true) in H.
  change (Num.lt c1 c0 && decreasing_throughout (c1 :: rest) = false).
  apply andb_true_iff in H as [H _]. now rewrite (gt_not_lt _ _ H).
Qed.

Lemma decreasing_not_increasing (cuts : list number) :
  (2 <= length cuts)%nat ->
  decreasing_throughout cuts = true -> increasing_throughout cuts = false.
Proof.
  destruct cuts as [|c0 [|c1 rest]]; simpl length; try lia.
  intros _ H.
  change (Num.lt c1 c0 && decreasing_throughout (c1 :: rest) = true) in H.
  change (Num.gt c1 c0 && increasing_throughout (c1 :: rest) = false).
  apply andb_true_iff in H as [H _]. now rewrite (lt_not_gt _ _ H).
Qed.

Lemma short_monotone (cuts : list number) :
  (length cuts < 2)%nat ->
  increasing_throughout cuts = true /\ decreasing_throughout cuts = true.
Proof. destruct cuts as [|c0 [|c1 rest]]; simpl length; try lia; now split. Qed.

Lemma levelCuts_step parser m lvl rest acc s :
  m !! lvl = Some s -> cut s <> VUndefined ->
  levelCuts parser m (lvl :: rest) acc
  = (parsed ← numeric parser (cut s);
     if Num.isNaN parsed then Return None
     else levelCuts parser m rest (acc ++ [parsed])).
Proof.
  intros Hs Hdef. simpl. rewrite Hs.
  destruct (cut s); [reflexivity | reflexivity | contradiction | reflexivity].
Qed.

Lemma levelCuts_resolves parser standards lvls cuts acc :
  Forall2 (resolves parser standards) lvls cuts ->
  levelCuts parser (labelToStd standards) lvls acc = Return (Some (acc ++ cuts)).
Proof.
  intros F. revert acc.
  induction F as [|lvl c lvls cuts (s & Hs & Hcut & Hnum & Hnan) _ IH]; intros acc.
  - simpl. now rewrite app_nil_r.
  - rewrite (levelCuts_step _ _ _ _ _ _ Hs Hcut), Hnum. simpl.
    now rewrite Hnan, IH, <- app_assoc.
Qed.

Lemma levelCuts_unresolved parser standards lvls acc :
  (forall s, In s standards -> exists c, numeric parser (cut s) = Return c) ->
  Exists (unresolved parser standards) lvls ->
  levelCuts parser (labelToStd standards) lvls acc = Return None.
Proof.
  intros Htotal. revert acc.
  induction lvls as [|lvl rest IH]; intros acc Hex.
  - inversion Hex.
  - destruct (labelToStd standards !! lvl) as [s|] eqn:Hs;
      [|simpl; now rewrite Hs].
    destruct (cut s) eqn:E; [| |simpl; now rewrite Hs, E|];
      (rewrite (levelCuts_step _ _ _ _ _ _ Hs) by (rewrite E; discriminate));
      destruct (Htotal s (proj1 (labelToStd_In _ _ _ Hs))) as [c Hc];
      rewrite Hc; simpl;
      (destruct (Num.isNaN c) eqn:Hnan; [reflexivity|]);
      apply IH;
      (apply Exists_cons in Hex as [Hhead|Htail]; [|exact Htail]);
      exfalso; unfold unresolved in Hhead; rewrite Hs in Hhead;
      (destruct Hhead as [Hu|Hn]; [congruence|]);
      rewrite Hn in Hc; injection Hc as <-; discriminate.
Qed.

(** A concrete level resolves to the standard [s]. *)
Ltac resolve_with s :=
  exists s;
  split; [vm_compute; reflexivity|];
  split; [discriminate|];
  split; [vm_compute; reflexivity | reflexivity].

(** C4, as stated, fails for a single level: its one cut is increasing
    throughout, and the direction is 'lower', with a diagnostic; the
    metric 15 is then matched to High, under 'lower'. *)
Lemma C4_single_level_counterexample :
  Forall2 (resolves defaultParser Scenario.lowHigh) ["Low"] [Num.of_Z 10]
  /\ increasing_throughout [Num.of_Z 10] = true
  /\ resolveDirection defaultParser Scenario.lowHigh (Some Options.dir_auto)
       (Some ["Low"])
     = Return (lower, [Msg.not_monotonic])
  /\ computePerformance (Scenario.num 15) (array Scenario.lowHigh)
       (Scenario.withLevels (Some Options.dir_auto) ["Low"])
     = Return Scenario.singleLevelResult
  /\ Result.label Scenario.singleLevelResult = "High"
  /\ errorsOf Scenario.singleLevelResult = [Msg.not_monotonic].
Proof.
  split; [|split; [reflexivity|split; [|split; [|split]]]].
  - constructor; [|constructor]. resolve_with (mkStandard "Low" (VStr "10")).
  - vm_compute. reflexivity.
  - vm_compute. reflexivity.
  - reflexivity.
  - reflexivity.
Qed.

(** C4, amended.  With direction 'auto' and levels that all resolve to
    standards with parseable cuts: two or more cuts that are strictly
    increasing throughout give 'higher'; two or more that are strictly
    decreasing throughout give 'lower'; anything else, fewer than two
    levels included, gives 'lower' and a diagnostic.  When a level is
    missing or its cut is unparsable, and the parser raises on no cut,
    the direction is 'lower', with a diagnostic.  The diagnostics are
    among the errors of the result of a call with standards. *)
Theorem C4_auto_direction parser standards lvls :
  (forall cuts,
     Forall2 (resolves parser standards) lvls cuts ->
     ((2 <= length cuts)%nat -> increasing_throughout cuts = true ->
      resolveDirection parser standards (Some Options.dir_auto) (Some lvls)
      = Return (higher, []))
     /\ ((2 <= length cuts)%nat -> decreasing_throughout cuts = true ->
         resolveDirection parser standards (Some Options.dir_auto) (Some lvls)
         = Return (lower, []))
     /\ ((length cuts < 2)%nat
         \/ (increasing_throughout cuts = false
             /\ decreasing_throughout cuts = false) ->
         resolveDirection parser standards (Some Options.dir_auto) (Some lvls)
         = Return (lower, [Msg.not_monotonic])))
  /\ ((forall s, In s standards -> exists c, numeric parser (cut s) = Return c) ->
      Exists (unresolved parser standards) lvls ->
      resolveDirection parser standards (Some Options.dir_auto) (Some lvls)
      = Return (lower, [Msg.missing_cuts]))
  /\ (forall metric options r dir errs,
        standards <> [] ->
        parserOf options = parser ->
        Options.direction options = Some Options.dir_auto ->
        Options.levels options = Some lvls ->
        computePerformance metric (array standards) options = Return r ->
        resolveDirection parser standards (Some Options.dir_auto) (Some lvls)
        = Return (dir, errs) ->
        forall msg, In msg errs -> In msg (errorsOf r)).
Proof.
  split; [|split].
  - intros cuts F. unfold resolveDirection.
    rewrite (levelCuts_resolves _ _ _ _ [] F). simpl.
    rewrite monotonicity_spec.
    split; [|split].
    + intros Hlen Hinc.
      now rewrite Hinc, (increasing_not_decreasing _ Hlen Hinc).
    + intros Hlen Hdec.
      now rewrite Hdec, (decreasing_not_increasing _ Hlen Hdec).
    + intros [Hlen|[Hinc Hdec]].
      * destruct (short_monotone _ Hlen) as [-> ->]. reflexivity.
      * now rewrite Hinc, Hdec.
  - intros Htotal Hex. unfold resolveDirection.
    now rewrite (levelCuts_unresolved _ _ _ [] Htotal Hex).
  - intros metric options r dir errs Hne Hp Hd Hl Hcall Hdir msg Hin.
    apply errors_of_call in Hcall as (dir' & errs' & dups & Hdir' & Hg & _);
      [|exact Hne].
    rewrite Hp, Hd, Hl, Hdir in Hdir'. injection Hdir' as <- <-.
    destruct Hg as (more & -> & _).
    apply in_or_app. left. apply in_or_app. now left.
Qed.

Lemma C4_auto_direction_witness :
  resolveDirection defaultParser Scenario.lowHigh (Some Options.dir_auto)
    (Some ["Low"; "High"])
  = Return (higher, [])
  /\ resolveDirection defaultParser Scenario.lowHigh (Some Options.dir_auto)
       (Some ["Low"; "Missing"])
     = Return (lower, [Msg.missing_cuts])
  /\ In Msg.not_monotonic (errorsOf Scenario.singleLevelResult).
Proof.
  split; [|split].
  - refine (proj1 (proj1 (C4_auto_direction defaultParser Scenario.lowHigh
                            ["Low"; "High"]) [Num.of_Z 10; Num.of_Z 20] _) _ _).
    + constructor; [|constructor; [|constructor]].
      * resolve_with (mkStandard "Low" (VStr "10")).
      * resolve_with (mkStandard "High" (VStr "20")).
    + simpl. lia.
    + vm_compute. reflexivity.
  - refine (proj1 (proj2 (C4_auto_direction defaultParser Scenario.lowHigh
                            ["Low"; "Missing"])) _ _).
    + intros s _. destruct (cut s); eexists; reflexivity.
    + apply Exists_cons_tl, Exists_cons_hd. vm_compute. exact I.
  - refine (proj2 (proj2 (C4_auto_direction defaultParser Scenario.lowHigh ["Low"]))
              (Scenario.num 15) (Scenario.withLevels (Some Options.dir_auto) ["Low"])
              Scenario.singleLevelResult lower [Msg.not_monotonic]
              _ _ _ _ _ _ Msg.not_monotonic _).
    + discriminate.
    + reflexivity.
    + reflexivity.
    + reflexivity.
    + vm_compute. reflexivity.
    + vm_compute. reflexivity.
    + now left.
Defined.

(** ** Further lemmas on the stages *)

Lemma Forall_In_impl {A} (P : A -> Prop) (l : list A) (x : A) :
  Forall P l -> In x l -> P x.
Proof.
  intros F Hin. rewrite Forall_forall in F. apply F. now apply list_elem_of_In.
Qed.

Lemma same_eq (x y : number) : Num.same x y = true -> x = y.
Proof.
  destruct x as [s1|s1| |s1 m1 e1], y as [s2|s2| |s2 m2 e2]; simpl;
    try discriminate; try reflexivity.
  - intros H. apply Bool.eqb_prop in H. now subst.
  - intros H. apply Bool.eqb_prop in H. now subst.
  - intros H. apply andb_true_iff in H as [H He].
    apply andb_true_iff in H as [Hs Hm].
    apply Bool.eqb_prop in Hs. apply Pos.eqb_eq in Hm. apply Z.eqb_eq in He.
    now subst.
Qed.

Section MoreStages.
Variable parser : value -> completion number.
Variable formatAbsolute : number -> completion string.
Variable formatRelative : number -> completion string.

(** The entries are the standards, in their order, with their
    positions and their parsed cuts; the errors are the diagnostics of
    the cuts that are NaN, in that order. *)
Lemma parseStandards_exact i standards errs entries errs' :
  parseStandards parser i standards errs = Return (entries, errs') ->
  map std entries = standards
  /\ map idx entries = seq i (length standards)
  /\ Forall (fun e => numeric parser (cut (std e)) = Return (cutNum e)) entries
  /\ errs' = errs ++ unparsableCuts entries.
Proof.
  revert i errs entries errs'.
  induction standards as [|s rest IH]; intros i errs entries errs' H; simpl in H.
  - injection H as <- <-. unfold unparsableCuts. simpl.
    now rewrite app_nil_r.
  - inv_bind H. rename a into c. inv_bind H. destruct a as [entries0 errs0].
    injection H as <- <-.
    apply IH in Hret0 as (Hstd & Hidx & Hall & ->).
    repeat split.
    + simpl. now rewrite Hstd.
    + simpl. now rewrite Hidx.
    + constructor; [exact Hret | exact Hall].
    + unfold unparsableCuts. simpl List.filter.
      destruct (Num.isNaN c); simpl.
      * now rewrite <- app_assoc.
      * reflexivity.
Qed.

(** An entry sits at its position in the array of the standards. *)
Lemma entries_lookup standards entries e :
  map std entries = standards ->
  map idx entries = seq 0 (length standards) ->
  In e entries -> standards !! idx e = Some (std e).
Proof.
  intros Hstd Hidx Hin.
  apply list_elem_of_In, list_elem_of_lookup in Hin as [k Hk].
  assert (Hi : map idx entries !! k = Some (idx e)).
  { change (map idx entries) with (idx <$> entries).
    now rewrite list_lookup_fmap, Hk. }
  rewrite Hidx in Hi. apply lookup_seq in Hi as [Hi _]. simpl in Hi.
  rewrite <- Hstd, Hi. change (map std entries) with (std <$> entries).
  now rewrite list_lookup_fmap, Hk.
Qed.

(** Every standard has its entry. *)
Lemma entries_cover standards entries s :
  map std entries = standards -> In s standards ->
  exists e, In e entries /\ std e = s.
Proof.
  intros <- Hin. apply in_map_iff in Hin as (e & He & Hin). eauto.
Qed.

Lemma missingLevels_exact m lvls errs :
  missingLevels m lvls errs
  = errs ++ map Msg.level_missing (List.filter (absent m) lvls).
Proof.
  revert errs. induction lvls as [|lvl rest IH]; intros errs; simpl.
  - now rewrite app_nil_r.
  - rewrite IH. unfold absent at 2. destruct (m !! lvl); simpl.
    + reflexivity.
    + now rewrite <- app_assoc.
Qed.

Lemma indexLabels_duplicates standards m errs :
  exists dups,
    snd (indexLabels standards m errs) = errs ++ dups
    /\ Forall duplicate_diag dups.
Proof.
  revert m errs. induction standards as [|s rest IH]; intros m errs; simpl.
  - exists []. split; [now rewrite app_nil_r | constructor].
  - destruct (m !! label s).
    + destruct (IH (<[label s := s]> m) (errs ++ [Msg.duplicate (label s)]))
        as (dups & -> & F).
      exists (Msg.duplicate (label s) :: dups). split.
      * now rewrite <- app_assoc.
      * constructor; [now exists (label s) | exact F].
    + apply IH.
Qed.

Lemma checkAgainst_ordering dir m lowLabel highs errs errs' :
  checkAgainst parser dir m lowLabel highs errs = Return errs' ->
  exists ord, errs' = errs ++ ord /\ Forall ordering_diag ord.
Proof.
  revert errs. induction highs as [|highLabel rest IH]; intros errs H; simpl in H.
  - injection H as <-. exists []. split; [now rewrite app_nil_r | constructor].
  - destruct (m !! lowLabel) as [lowStd|]; [|now apply IH].
    destruct (m !! highLabel) as [highStd|]; [|now apply IH].
    inv_bind H. rename a into lowCut. inv_bind H. rename a into highCut.
    assert (Hpush : forall msg,
              ordering_diag msg ->
              checkAgainst parser dir m lowLabel rest (errs ++ [msg]) = Return errs' ->
              exists ord, errs' = errs ++ ord /\ Forall ordering_diag ord).
    { intros msg Hmsg H'. apply IH in H' as (ord & -> & F).
      exists (msg :: ord). split; [now rewrite <- app_assoc | now constructor]. }
    destruct (Num.isNaN lowCut || Num.isNaN highCut).
    + apply Hpush in H; [exact H|]. left. eauto.
    + destruct dir.
      * destruct (negb (Num.lt lowCut highCut)); [|now apply IH].
        apply Hpush in H; [exact H|]. right. eauto 10.
      * destruct (negb (Num.gt lowCut highCut)); [|now apply IH].
        apply Hpush in H; [exact H|]. right. eauto 10.
Qed.

Lemma checkOrdering_ordering dir m lvls errs errs' :
  checkOrdering parser dir m lvls errs = Return errs' ->
  exists ord, errs' = errs ++ ord /\ Forall ordering_diag ord.
Proof.
  revert errs. induction lvls as [|lowLabel rest IH]; intros errs H; simpl in H.
  - injection H as <-. exists []. split; [now rewrite app_nil_r | constructor].
  - inv_bind H. apply checkAgainst_ordering in Hret as (ord1 & -> & F1).
    apply IH in H as (ord2 & -> & F2).
    exists (ord1 ++ ord2). split; [now rewrite app_assoc | now apply Forall_app].
Qed.

(** The errors of the validation of the levels: the duplicates, the
    missing levels, the ordering. *)
Lemma validateLevels_exact dir standards lvls errs errs' :
  validateLevels parser dir standards (Some lvls) errs = Return errs' ->
  exists dups ord,
    errs' = errs ++ dups ++ missingDiags standards lvls ++ ord
    /\ Forall duplicate_diag dups
    /\ Forall ordering_diag ord
    /\ checkOrdering parser dir (labelToStd standards) lvls
         (errs ++ dups ++ missingDiags standards lvls) = Return errs'.
Proof.
  unfold validateLevels. intros H.
  destruct (indexLabels_duplicates standards ∅ errs) as (dups & Hd & Fd).
  pose proof (indexLabels_map standards errs) as Hm.
  destruct (indexLabels standards ∅ errs) as [m errs1].
  simpl in Hd, Hm. subst m errs1.
  rewrite missingLevels_exact in H. fold (missingDiags standards lvls) in H.
  rewrite <- app_assoc in H.
  destruct (checkOrdering_ordering _ _ _ _ _ H) as (ord & -> & Ford).
  exists dups, ord. repeat split; try assumption.
  now rewrite <- !app_assoc.
Qed.

Lemma nextBetter_beyond dir entries reference e :
  nextBetter dir entries reference = Some e ->
  In e entries /\ Num.isFinite (cutNum e) = true
  /\ beyond dir (cutNum e) reference = true.
Proof.
  unfold nextBetter, beyond. destruct dir; intros H;
    apply head_In, sortBy_In, filter_In in H as [Hin Hp];
    apply andb_true_iff in Hp as [Hfin Hb]; auto.
Qed.

Lemma nextBetter_none dir entries reference e :
  nextBetter dir entries reference = None ->
  In e entries -> Num.isFinite (cutNum e) = true ->
  beyond dir (cutNum e) reference = false.
Proof.
  unfold nextBetter, beyond. intros H Hin Hfin.
  destruct dir.
  - destruct (Num.gt (cutNum e) reference) eqn:Hb; [|reflexivity].
    apply head_None, sortBy_nil_inv in H.
    assert (Hf : In e (List.filter
                         (fun e => Num.isFinite (cutNum e)
                                   && Num.gt (cutNum e) reference) entries))
      by (apply filter_In; now rewrite Hfin, Hb).
    rewrite H in Hf. destruct Hf.
  - destruct (Num.lt (cutNum e) reference) eqn:Hb; [|reflexivity].
    apply head_None, sortBy_nil_inv in H.
    assert (Hf : In e (List.filter
                         (fun e => Num.isFinite (cutNum e)
                                   && Num.lt (cutNum e) reference) entries))
      by (apply filter_In; now rewrite Hfin, Hb).
    rewrite H in Hf. destruct Hf.
Qed.

(** The fields of the result of the branch without a match. *)
Lemma unmatched_fields dir entries m errs r :
  NoDup (map idx entries) ->
  unmatched parser formatAbsolute formatRelative dir entries m errs = Return r ->
  let nextBest := if Num.isFinite m then nextBetter dir entries m else None in
  Result.label r = "unknown"
  /\ Result.index r = (-1)%Z
  /\ Result.standard r = None
  /\ Result.nextStandard r = std <$> nextBest
  /\ buildNextCutObject parser formatAbsolute (std <$> nextBest)
     = Return (Result.nextCut r)
  /\ Result.diffToNext r
     = (fun e => directedDiff dir (cutNum e) m) <$> nextBest
  /\ match Result.diffToNext r with
     | Some d =>
         exists f, Result.diffToNextFormatted r = Some f
                   /\ format formatAbsolute formatRelative d = Return f
     | None => Result.diffToNextFormatted r = None
     end
  /\ errorsOf r = errs
  /\ Validation.valid (Result.validation r) = bool_decide (errorsOf r = []).
Proof.
  intros Hnd H. unfold unmatched in H.
  destruct (Num.isFinite m) eqn:Hm.
  - destruct (nextBetter dir entries m) as [e|] eqn:Hn.
    + destruct (nextBetter_spec _ _ _ _ Hn) as [Hin Hfin].
      rewrite (cutNumOf_In _ _ Hnd Hin), Hfin in H.
      inv_bind H. destruct a as [[diff formatted] errs0].
      inv_bind Hret. injection Hret as <- <- <-.
      inv_bind H. injection H as <-. simpl.
      repeat split; try assumption. eauto.
    + inv_bind H. injection Hret as <-. inv_bind H. injection H as <-. simpl.
      repeat split; assumption.
  - inv_bind H. injection Hret as <-. inv_bind H. injection H as <-. simpl.
    repeat split; assumption.
Qed.

(** The fields of the result for the best match. *)
Lemma matched_fields dir entries m best errs r :
  NoDup (map idx entries) ->
  matched parser formatAbsolute formatRelative dir entries m best errs = Return r ->
  let next := nextBetter dir entries (cutNum best) in
  Result.label r = label (std best)
  /\ Result.index r = Z.of_nat (idx best)
  /\ Result.standard r = Some (std best)
  /\ Result.nextStandard r = std <$> next
  /\ buildNextCutObject parser formatAbsolute (std <$> next)
     = Return (Result.nextCut r)
  /\ Result.diffToNext r
     = (if Num.isFinite m
        then (fun e => directedDiff dir (cutNum e) m) <$> next else None)
  /\ match Result.diffToNext r with
     | Some d =>
         exists f, Result.diffToNextFormatted r = Some f
                   /\ format formatAbsolute formatRelative d = Return f
     | None => Result.diffToNextFormatted r = None
     end
  /\ errorsOf r = errs ++ diffDiag next m
  /\ Validation.valid (Result.validation r) = bool_decide (errorsOf r = []).
Proof.
  intros Hnd H. unfold matched in H.
  destruct (nextBetter dir entries (cutNum best)) as [e|] eqn:Hn.
  - destruct (nextBetter_spec _ _ _ _ Hn) as [Hin Hfin].
    rewrite (cutNumOf_In _ _ Hnd Hin), Hfin in H. simpl andb in H.
    unfold diffDiag. destruct (Num.isFinite m) eqn:Hm.
    + inv_bind H. inv_bind Hret. injection Hret as <-.
      inv_bind H. injection H as <-. simpl. rewrite app_nil_r.
      repeat split; try assumption. eauto.
    + inv_bind H. injection Hret as <-.
      inv_bind H. injection H as <-. simpl.
      repeat split; assumption.
  - inv_bind H. injection Hret as <-. inv_bind H. injection H as <-. simpl.
    rewrite app_nil_r. destruct (Num.isFinite m); repeat split; assumption.
Qed.

(** What a call that returns went through, with the matches. *)
Lemma computeWith_cases metric standards direction levels mode r :
  computeWith parser formatAbsolute formatRelative metric standards
    direction levels mode = Return r ->
  exists dir errs1 errs2 metricNum entries,
    resolveDirection parser standards direction levels = Return (dir, errs1)
    /\ validateLevels parser dir standards levels errs1 = Return errs2
    /\ (mode = Some Options.throw -> errs2 = [])
    /\ numeric parser metric = Return metricNum
    /\ parseStandards parser 0 standards (errs2 ++ unparsableMetric metricNum)
       = Return (entries,
                 errs2 ++ unparsableMetric metricNum ++ unparsableCuts entries)
    /\ ((matchesOf dir metricNum entries = []
         /\ unmatched parser formatAbsolute formatRelative dir entries metricNum
              (errs2 ++ unparsableMetric metricNum ++ unparsableCuts entries)
            = Return r)
        \/ exists best,
             In best (matchesOf dir metricNum entries)
             /\ matched parser formatAbsolute formatRelative dir entries
                  metricNum best
                  (errs2 ++ unparsableMetric metricNum ++ unparsableCuts entries)
                = Return r).
Proof.
  unfold computeWith. intros H.
  inv_bind H. destruct a as [dir errs1].
  inv_bind H. rename a into errs2.
  assert (Hmode : mode = Some Options.throw -> errs2 = []).
  { intros ->. destruct errs2; [reflexivity | discriminate]. }
  assert (H' :
    (metricNum ← numeric parser metric;
     let errors :=
       if Num.isNaN metricNum then errs2 ++ [Msg.metric_unparsable] else errs2 in
     '(numericStandards, errors) ← parseStandards parser 0 standards errors;
     let matches := matchesOf dir metricNum numericStandards in
     match matches with
     | [] => unmatched parser formatAbsolute formatRelative dir numericStandards
               metricNum errors
     | first :: _ =>
         let sorted :=
           match dir with
           | higher => sortBy (fun a b => Num.sub (cutNum b) (cutNum a)) matches
           | lower => sortBy (fun a b => Num.sub (cutNum a) (cutNum b)) matches
           end in
         let bestMatch := List.hd first sorted in
         matched parser formatAbsolute formatRelative dir numericStandards
           metricNum bestMatch errors
     end) = Return r).
  { destruct mode as [[]|]; [exact H | | exact H].
    destruct errs2; [exact H | discriminate]. }
  clear H. inv_bind H'. rename a into metricNum.
  cbv zeta in H'. inv_bind H'. destruct a as [entries errs3].
  assert (Herrs : (if Num.isNaN metricNum
                   then errs2 ++ [Msg.metric_unparsable] else errs2)
                  = errs2 ++ unparsableMetric metricNum).
  { unfold unparsableMetric. destruct (Num.isNaN metricNum);
      [reflexivity | now rewrite app_nil_r]. }
  rewrite Herrs in Hret2.
  pose proof (parseStandards_exact _ _ _ _ _ Hret2) as (_ & _ & _ & Herrs3).
  rewrite <- app_assoc in Herrs3. subst errs3.
  exists dir, errs1, errs2, metricNum, entries.
  repeat (split; [assumption|]).
  destruct (matchesOf dir metricNum entries) as [|first rest] eqn:Hmatches;
    [now left|].
  right. eexists. split; [|exact H'].
  destruct dir; apply hd_sortBy_In; now left.
Qed.
End MoreStages.

(** The formatters that a call uses. *)
Abbreviation absoluteOf options :=
  (default defaultAbsolute (Options.formatAbsolute options)).
Abbreviation relativeOf options :=
  (default defaultRelative (Options.formatRelative options)).

(** Opens a call with standards that returned: the stages it went
    through, and the fields of its result in the two branches. *)
Ltac open_call Hcall :=
  apply computeWith_cases in Hcall
    as (dir0 & errs1 & errs2 & m0 & entries
        & Hdir & Hval & Hmode & Hm & Hparse & Hres);
  pose proof (parseStandards_exact _ _ _ _ _ _ Hparse) as (Hstd & Hidx & Hall & _);
  assert (Hnd : NoDup (map idx entries)) by (rewrite Hidx; apply NoDup_seq);
  destruct Hres as [[Hnone Hres]|(best & Hbest & Hres)];
  [ apply unmatched_fields in Hres
      as (Hlabel & Hindex & Hstandard & Hnext & Hcut & Hdiff & Hfmt & Herrs & Hvalid);
    [|exact Hnd]
  | apply matched_fields in Hres
      as (Hlabel & Hindex & Hstandard & Hnext & Hcut & Hdiff & Hfmt & Herrs & Hvalid);
    [|exact Hnd] ].

(** ** The shape of a result *)

(** X1.  A result is either the unmatched one ('unknown', index -1, no
    standard), or a matched one, whose index is the position of the
    matched standard in the array of the caller and whose label is the
    label of that standard. *)
Theorem X1_index_is_position metric standards options r :
  computePerformance metric (array standards) options = Return r ->
  (Result.label r = "unknown" /\ Result.index r = (-1)%Z
   /\ Result.standard r = None)
  \/ (exists i s,
        Result.index r = Z.of_nat i
        /\ standards !! i = Some s
        /\ Result.standard r = Some s
        /\ Result.label r = label s).
Proof.
  intros Hcall.
  apply computePerformance_inv in Hcall as [[-> ->]|Hcall]; [now left|].
  open_call Hcall.
  - left. auto.
  - right. exists (idx best), (std best). repeat split; try assumption.
    apply (entries_lookup _ entries); try assumption.
    now apply filter_In in Hbest as [Hin _].
Qed.

Lemma X1_index_is_position_witness :
  exists i s,
    Result.index Scenario.slowResult = Z.of_nat i
    /\ Scenario.timeStandards !! i = Some s
    /\ Result.standard Scenario.slowResult = Some s
    /\ Result.label Scenario.slowResult = label s.
Proof.
  assert (H : computePerformance (VStr "2:30.00") (array Scenario.timeStandards)
                Options.none = Return Scenario.slowResult)
    by (vm_compute; reflexivity).
  destruct (X1_index_is_position _ _ _ _ H) as [(Hl & _)|Hm];
    [discriminate Hl | exact Hm].
Defined.

(** X2.  The matched standard qualifies: the metric and its cut are not
    NaN, and the metric is at least the cut under 'higher', at most the
    cut under 'lower'. *)
Theorem X2_matched_standard_qualifies metric standards options r s dir errs m c :
  computePerformance metric (array standards) options = Return r ->
  Result.standard r = Some s ->
  resolveDirection (parserOf options) standards (Options.direction options)
    (Options.levels options) = Return (dir, errs) ->
  numeric (parserOf options) metric = Return m ->
  numeric (parserOf options) (cut s) = Return c ->
  Num.isNaN m = false /\ Num.isNaN c = false
  /\ match dir with
     | higher => Num.ge m c
     | lower => Num.le m c
     end = true.
Proof.
  intros Hcall Hs Hd Hmetric Hc.
  apply computePerformance_inv in Hcall as [[-> ->]|Hcall]; [discriminate|].
  open_call Hcall; [congruence|].
  rewrite Hd in Hdir. injection Hdir as <- <-.
  rewrite Hmetric in Hm. injection Hm as <-.
  rewrite Hs in Hstandard. injection Hstandard as ->.
  apply filter_In in Hbest as [Hin Hp].
  pose proof (Forall_In_impl _ _ _ Hall Hin) as Hnum. simpl in Hnum.
  rewrite Hc in Hnum. injection Hnum as ->.
  apply andb_true_iff in Hp as [Hp Hmatch].
  apply andb_true_iff in Hp as [Hcn Hmn].
  apply negb_true_iff in Hcn, Hmn.
  unfold isMatchNum in Hmatch. rewrite Hcn in Hmatch.
  repeat split; assumption.
Qed.

Lemma X2_matched_standard_qualifies_witness :
  Num.le (Num.of_Z 150) Num.Infinity = true.
Proof.
  refine (proj2 (proj2
    (X2_matched_standard_qualifies (VStr "2:30.00") Scenario.timeStandards
       Options.none Scenario.slowResult (mkStandard "Slow" (VNum Num.Infinity))
       lower [] (Num.of_Z 150) Num.Infinity _ _ _ _ _)));
    vm_compute; reflexivity.
Defined.

(** X3.  When the result has no matched standard, no standard qualifies:
    the metric is NaN, or it does not match the cut of any standard. *)
Theorem X3_unmatched_means_none_qualifies metric standards options r dir errs m :
  computePerformance metric (array standards) options = Return r ->
  Result.standard r = None ->
  resolveDirection (parserOf options) standards (Options.direction options)
    (Options.levels options) = Return (dir, errs) ->
  numeric (parserOf options) metric = Return m ->
  forall s c,
    In s standards ->
    numeric (parserOf options) (cut s) = Return c ->
    Num.isNaN m = true \/ isMatchNum m c dir = false.
Proof.
  intros Hcall Hs Hd Hmetric s c Hin Hc.
  apply computePerformance_inv in Hcall as [[-> ->]|Hcall]; [destruct Hin|].
  open_call Hcall; [|congruence].
  rewrite Hd in Hdir. injection Hdir as <- <-.
  rewrite Hmetric in Hm. injection Hm as <-.
  destruct (entries_cover _ _ _ Hstd Hin) as (e & He & <-).
  pose proof (Forall_In_impl _ _ _ Hall He) as Hnum. simpl in Hnum.
  rewrite Hc in Hnum. injection Hnum as ->.
  destruct (Num.isNaN m) eqn:Hmn; [now left|]. right.
  destruct (isMatchNum m (cutNum e) dir) eqn:Hmatch; [|reflexivity].
  assert (Hf : In e (matchesOf dir m entries)).
  { apply filter_In. split; [exact He|].
    rewrite Hmn, Hmatch. unfold isMatchNum in Hmatch.
    destruct (Num.isNaN (cutNum e)); [discriminate | reflexivity]. }
  rewrite Hnone in Hf. destruct Hf.
Qed.

Lemma X3_unmatched_means_none_qualifies_witness :
  Num.isNaN (Num.of_Z (-1000)) = true
  \/ isMatchNum (Num.of_Z (-1000)) (Num.of_Z 0) higher = false.
Proof.
  refine (X3_unmatched_means_none_qualifies (Scenario.num (-1000))
            [mkStandard "Positive" (Scenario.num 0)]
            Scenario.higherOptions Scenario.positiveResult higher []
            (Num.of_Z (-1000)) _ _ _ _
            (mkStandard "Positive" (Scenario.num 0)) (Num.of_Z 0) _ _).
  - vm_compute. reflexivity.
  - reflexivity.
  - reflexivity.
  - reflexivity.
  - now left.
  - reflexivity.
Defined.

(** ** The next standard *)

(** What the next standard of a result is: an entry with a finite cut
    that is beyond the cut of the matched standard, or beyond the metric
    when nothing matched. *)
Lemma next_entry metric standards options r next :
  computePerformance metric (array standards) options = Return r ->
  Result.nextStandard r = Some next ->
  exists dir errs m cn,
    resolveDirection (parserOf options) standards (Options.direction options)
      (Options.levels options) = Return (dir, errs)
    /\ numeric (parserOf options) metric = Return m
    /\ numeric (parserOf options) (cut next) = Return cn
    /\ Num.isFinite cn = true
    /\ match Result.standard r with
       | Some s =>
           exists cs, numeric (parserOf options) (cut s) = Return cs
                      /\ beyond dir cn cs = true
       | None => beyond dir cn m = true
       end.
Proof.
  intros Hcall Hn.
  apply computePerformance_inv in Hcall as [[-> ->]|Hcall]; [discriminate|].
  open_call Hcall.
  - exists dir0, errs1, m0. rewrite Hstandard, Hn in *.
    destruct (Num.isFinite m0); [|discriminate].
    destruct (nextBetter dir0 entries m0) as [e|] eqn:Hnb; [|discriminate].
    injection Hnext as ->.
    apply nextBetter_beyond in Hnb as (Hin & Hfin & Hb).
    pose proof (Forall_In_impl _ _ _ Hall Hin) as Hnum. simpl in Hnum.
    exists (cutNum e). auto.
  - exists dir0, errs1, m0. rewrite Hstandard, Hn in *.
    destruct (nextBetter dir0 entries (cutNum best)) as [e|] eqn:Hnb;
      [|discriminate].
    injection Hnext as ->.
    apply nextBetter_beyond in Hnb as (Hin & Hfin & Hb).
    pose proof (Forall_In_impl _ _ _ Hall Hin) as Hnum. simpl in Hnum.
    apply filter_In in Hbest as [Hbin _].
    pose proof (Forall_In_impl _ _ _ Hall Hbin) as Hbnum. simpl in Hbnum.
    exists (cutNum e). eauto 10.
Qed.

(** X4.  The next standard is strictly better than the reference: its
    cut is finite, and it is above (under 'higher') or below (under
    'lower') the cut of the matched standard, or the metric itself when
    nothing matched. *)
Theorem X4_next_is_strictly_better metric standards options r next dir errs m cn :
  computePerformance metric (array standards) options = Return r ->
  Result.nextStandard r = Some next ->
  resolveDirection (parserOf options) standards (Options.direction options)
    (Options.levels options) = Return (dir, errs) ->
  numeric (parserOf options) metric = Return m ->
  numeric (parserOf options) (cut next) = Return cn ->
  Num.isFinite cn = true
  /\ match Result.standard r with
     | Some s =>
         exists cs, numeric (parserOf options) (cut s) = Return cs
                    /\ beyond dir cn cs = true
     | None => beyond dir cn m = true
     end.
Proof.
  intros Hcall Hn Hd Hm Hc.
  destruct (next_entry _ _ _ _ _ Hcall Hn)
    as (dir' & errs' & m' & cn' & Hd' & Hm' & Hc' & Hfin & H).
  rewrite Hd in Hd'. injection Hd' as <- <-.
  rewrite Hm in Hm'. injection Hm' as <-.
  rewrite Hc in Hc'. injection Hc' as <-.
  split; [exact Hfin | exact H].
Qed.

Lemma X4_next_is_strictly_better_witness :
  Num.isFinite (Num.of_Z 60) = true
  /\ exists cs,
       numeric defaultParser (VNum Num.Infinity) = Return cs
       /\ beyond lower (Num.of_Z 60) cs = true.
Proof.
  refine (X4_next_is_strictly_better (VStr "2:30.00") Scenario.timeStandards
            Options.none Scenario.slowResult
            (mkStandard "Moderate" (Scenario.num 60)) lower []
            (Num.of_Z 150) (Num.of_Z 60) _ _ _ _ _);
    vm_compute; reflexivity.
Defined.

Lemma without_next metric standards options r :
  computePerformance metric (array standards) options = Return r ->
  Result.nextStandard r = None ->
  Result.diffToNext r = None /\ Result.nextCut r = None.
Proof.
  intros Hcall Hn.
  apply computePerformance_inv in Hcall as [[-> ->]|Hcall]; [now split|].
  open_call Hcall; rewrite Hn in Hnext.
  - destruct (if Num.isFinite m0 then nextBetter dir0 entries m0 else None);
      [discriminate|].
    simpl in Hcut, Hdiff. injection Hcut as <-. now split.
  - destruct (nextBetter dir0 entries (cutNum best)); [discriminate|].
    simpl in Hcut, Hdiff. injection Hcut as <-.
    split; [|reflexivity]. rewrite Hdiff. now destruct (Num.isFinite m0).
Qed.

(** X5.  Without a next standard there is no difference and no next
    cut; the formatted difference is there exactly when the difference
    is, and it is what the two formatters return for its two numbers. *)
Theorem X5_formatted_follows_diff metric standards options r :
  computePerformance metric (array standards) options = Return r ->
  (Result.nextStandard r = None ->
   Result.diffToNext r = None /\ Result.nextCut r = None)
  /\ match Result.diffToNext r with
     | Some d =>
         exists f,
           Result.diffToNextFormatted r = Some f
           /\ absoluteOf options (Diff.absolute d) = Return (Formatted.absolute f)
           /\ relativeOf options (Diff.relative d) = Return (Formatted.relative f)
     | None => Result.diffToNextFormatted r = None
     end.
Proof.
  intros Hcall. split; [apply (without_next _ _ _ _ Hcall)|].
  apply computePerformance_inv in Hcall as [[-> ->]|Hcall]; [reflexivity|].
  assert (Hformat : forall d f,
            format (absoluteOf options) (relativeOf options) d = Return f ->
            absoluteOf options (Diff.absolute d) = Return (Formatted.absolute f)
            /\ relativeOf options (Diff.relative d) = Return (Formatted.relative f)).
  { intros d f H. unfold format in H. inv_bind H. inv_bind H.
    injection H as <-. now split. }
  open_call Hcall;
    (destruct (Result.diffToNext r) as [d|]; [|exact Hfmt]);
    destruct Hfmt as (f & Hf & Hfd); exists f; (split; [exact Hf|]); auto.
Qed.

Lemma X5_formatted_follows_diff_witness :
  match Result.diffToNext Scenario.slowResult with
  | Some d =>
      exists f,
        Result.diffToNextFormatted Scenario.slowResult = Some f
        /\ defaultAbsolute (Diff.absolute d) = Return (Formatted.absolute f)
        /\ defaultRelative (Diff.relative d) = Return (Formatted.relative f)
  | None => Result.diffToNextFormatted Scenario.slowResult = None
  end.
Proof.
  assert (H : computePerformance (VStr "2:30.00") (array Scenario.timeStandards)
                Options.none = Return Scenario.slowResult)
    by (vm_compute; reflexivity).
  exact (proj2 (X5_formatted_follows_diff _ _ _ _ H)).
Defined.

(** X6.  The next cut is there exactly when the next standard is; it
    carries the label of the next standard, and its cut is the cut of
    the standard when that is a string, and otherwise what the absolute
    formatter returns for the parsed cut. *)
Theorem X6_next_cut_of_next_standard metric standards options r :
  computePerformance metric (array standards) options = Return r ->
  match Result.nextStandard r with
  | Some s =>
      exists c,
        Result.nextCut r = Some {| NextCut.label := label s; NextCut.cut := c |}
        /\ match cut s with
           | VStr str => c = str
           | other =>
               exists x, numeric (parserOf options) other = Return x
                         /\ absoluteOf options x = Return c
           end
  | None => Result.nextCut r = None
  end.
Proof.
  intros Hcall.
  destruct (Result.nextStandard r) as [s|] eqn:Hn.
  - destruct (next_entry _ _ _ _ _ Hcall Hn)
      as (_ & _ & _ & cn & _ & _ & Hcn & Hfin & _).
    assert (Hbuild : buildNextCutObject (parserOf options) (absoluteOf options)
                       (Some s) = Return (Result.nextCut r)).
    { apply computePerformance_inv in Hcall as [[-> ->]|Hcall]; [discriminate|].
      open_call Hcall; rewrite Hn in Hnext; now rewrite <- Hnext in Hcut. }
    unfold buildNextCutObject in Hbuild. rewrite Hcn in Hbuild.
    simpl in Hbuild. rewrite Hfin in Hbuild.
    inv_bind Hbuild. injection Hbuild as <-.
    exists a. split; [reflexivity|].
    destruct (cut s) as [x|str| |o].
    + exists cn. now split.
    + now injection Hret as <-.
    + exists cn. now split.
    + exists cn. now split.
  - apply (without_next _ _ _ _ Hcall Hn).
Qed.

Lemma X6_next_cut_of_next_standard_witness :
  exists c,
    Result.nextCut Scenario.slowResult
    = Some {| NextCut.label := "Moderate"; NextCut.cut := c |}
    /\ exists x, numeric defaultParser (Scenario.num 60) = Return x
                 /\ defaultAbsolute x = Return c.
Proof.
  assert (H : computePerformance (VStr "2:30.00") (array Scenario.timeStandards)
                Options.none = Return Scenario.slowResult)
    by (vm_compute; reflexivity).
  exact (X6_next_cut_of_next_standard _ _ _ _ H).
Defined.

(** ** The list of the errors *)

Lemma resolveDirection_diags parser standards direction levels dir errs :
  resolveDirection parser standards direction levels = Return (dir, errs) ->
  Forall direction_diag errs
  /\ (direction <> Some Options.dir_auto -> errs = []).
Proof.
  unfold resolveDirection, direction_diag.
  destruct direction as [[]|];
    try (intros [= <- <-]; split; [constructor | reflexivity]).
  intros H. split; [|intros Hne; now contradiction Hne].
  destruct levels as [lvls|];
    [|injection H as <- <-; constructor; [auto | constructor]].
  inv_bind H. destruct a as [cuts|].
  - destruct (monotonicity cuts) as [[] []]; simpl in H;
      injection H as <- <-;
      first [now constructor | constructor; [auto | constructor]].
  - injection H as <- <-. constructor; [auto | constructor].
Qed.

(** The errors of a result, stage by stage. *)
Lemma errors_anatomy metric standards options r :
  standards <> [] ->
  computePerformance metric (array standards) options = Return r ->
  exists dir errs1 dups ord m entries,
    resolveDirection (parserOf options) standards (Options.direction options)
      (Options.levels options) = Return (dir, errs1)
    /\ numeric (parserOf options) metric = Return m
    /\ map std entries = standards
    /\ Forall (fun e => numeric (parserOf options) (cut (std e))
                        = Return (cutNum e)) entries
    /\ Forall direction_diag errs1
    /\ Forall duplicate_diag dups
    /\ Forall ordering_diag ord
    /\ (Options.levels options = None -> dups = [] /\ ord = [])
    /\ (Options.validationMode options = Some Options.throw ->
        errs1 ++ dups ++ missingOf options standards ++ ord = [])
    /\ errorsOf r
       = errs1 ++ dups ++ missingOf options standards ++ ord
           ++ unparsableMetric m ++ unparsableCuts entries ++ tailDiag r.
Proof.
  intros Hne Hcall.
  apply computePerformance_inv in Hcall as [[-> _]|Hcall]; [contradiction|].
  assert (Hvalidate : forall dir errs1 errs2,
    validateLevels (parserOf options) dir standards (Options.levels options) errs1
    = Return errs2 ->
    exists dups ord,
      errs2 = errs1 ++ dups ++ missingOf options standards ++ ord
      /\ Forall duplicate_diag dups /\ Forall ordering_diag ord
      /\ (Options.levels options = None -> dups = [] /\ ord = [])).
  { intros dir errs1 errs2 H. unfold missingOf.
    destruct (Options.levels options) as [lvls|].
    - apply validateLevels_exact in H as (dups & ord & -> & Fd & Fo & _).
      exists dups, ord. repeat split; try assumption; discriminate.
    - injection H as <-. exists [], []. simpl. rewrite app_nil_r.
      repeat split; constructor. }
  open_call Hcall.
  - destruct (Hvalidate _ _ _ Hval) as (dups & ord & -> & Fd & Fo & Hnl).
    destruct (resolveDirection_diags _ _ _ _ _ _ Hdir) as (Fdir & _).
    assert (Htail : tailDiag r = []).
    { unfold tailDiag. rewrite Hnext, Hdiff.
      now destruct (if Num.isFinite m0 then nextBetter dir0 entries m0 else None). }
    exists dir0, errs1, dups, ord, m0, entries.
    do 8 (split; [assumption|]).
    split; [intros Hthrow; now apply Hmode|].
    rewrite Herrs, Htail, app_nil_r, <- !app_assoc. reflexivity.
  - destruct (Hvalidate _ _ _ Hval) as (dups & ord & -> & Fd & Fo & Hnl).
    destruct (resolveDirection_diags _ _ _ _ _ _ Hdir) as (Fdir & _).
    assert (Htail : tailDiag r
                    = diffDiag (nextBetter dir0 entries (cutNum best)) m0).
    { unfold tailDiag, diffDiag. rewrite Hnext, Hdiff.
      destruct (nextBetter dir0 entries (cutNum best)); simpl;
        now destruct (Num.isFinite m0). }
    exists dir0, errs1, dups, ord, m0, entries.
    do 8 (split; [assumption|]).
    split; [intros Hthrow; now apply Hmode|].
    rewrite Herrs, Htail, <- !app_assoc. reflexivity.
Qed.

(** X7.  [validation.valid] is true exactly when [validation.errors] is
    empty, in every result. *)
Theorem X7_valid_iff_no_errors metric standards options r :
  computePerformance metric standards options = Return r ->
  Validation.valid (Result.validation r) = true <-> errorsOf r = [].
Proof.
  intros Hcall. destruct standards as [|standards].
  - injection Hcall as <-. simpl. split; discriminate.
  - apply computePerformance_inv in Hcall as [[-> ->]|Hcall];
      [simpl; split; discriminate|].
    open_call Hcall; rewrite Hvalid; apply bool_decide_eq_true.
Qed.

Lemma X7_valid_iff_no_errors_witness :
  Validation.valid (Result.validation Scenario.slowResult) = true
  <-> errorsOf Scenario.slowResult = [].
Proof.
  assert (H : computePerformance (VStr "2:30.00") (array Scenario.timeStandards)
                Options.none = Return Scenario.slowResult)
    by (vm_compute; reflexivity).
  exact (X7_valid_iff_no_errors _ _ _ _ H).
Defined.

(** X8.  For an array of standards that is not empty, the errors of a
    result are in the order of detection: the
    diagnostic of the inference of the direction, the duplicate labels,
    the missing levels (in the order of the levels), the ordering of the
    levels, the unparsable metric, the unparsable cuts (in the order of
    the standards), and the difference that cannot be computed.  Without
    [levels] there are no diagnostics of duplicates or of ordering. *)
Theorem X8_errors_in_detection_order metric standards options r :
  standards <> [] ->
  computePerformance metric (array standards) options = Return r ->
  exists dir errs1 dups ord m entries,
    resolveDirection (parserOf options) standards (Options.direction options)
      (Options.levels options) = Return (dir, errs1)
    /\ numeric (parserOf options) metric = Return m
    /\ map std entries = standards
    /\ Forall (fun e => numeric (parserOf options) (cut (std e))
                        = Return (cutNum e)) entries
    /\ Forall direction_diag errs1
    /\ Forall duplicate_diag dups
    /\ Forall ordering_diag ord
    /\ (Options.levels options = None -> dups = [] /\ ord = [])
    /\ errorsOf r
       = errs1 ++ dups ++ missingOf options standards ++ ord
           ++ unparsableMetric m ++ unparsableCuts entries ++ tailDiag r.
Proof.
  intros Hne Hcall.
  destruct (errors_anatomy _ _ _ _ Hne Hcall)
    as (dir & errs1 & dups & ord & m & entries & H).
  exists dir, errs1, dups, ord, m, entries. tauto.
Qed.

Lemma X8_errors_in_detection_order_witness :
  exists dir errs1 dups ord m entries,
    resolveDirection defaultParser Scenario.lowHigh (Some Options.dir_auto)
      (Some ["Low"]) = Return (dir, errs1)
    /\ numeric defaultParser (Scenario.num 15) = Return m
    /\ map std entries = Scenario.lowHigh
    /\ Forall (fun e => numeric defaultParser (cut (std e)) = Return (cutNum e))
         entries
    /\ Forall direction_diag errs1
    /\ Forall duplicate_diag dups
    /\ Forall ordering_diag ord
    /\ (Some ["Low"] = None -> dups = [] /\ ord = [])
    /\ errorsOf Scenario.singleLevelResult
       = errs1 ++ dups
           ++ missingOf (Scenario.withLevels (Some Options.dir_auto) ["Low"])
                Scenario.lowHigh
           ++ ord ++ unparsableMetric m ++ unparsableCuts entries
           ++ tailDiag Scenario.singleLevelResult.
Proof.
  assert (Hne : Scenario.lowHigh <> []) by discriminate.
  assert (H : computePerformance (Scenario.num 15) (array Scenario.lowHigh)
                (Scenario.withLevels (Some Options.dir_auto) ["Low"])
              = Return Scenario.singleLevelResult)
    by (vm_compute; reflexivity).
  exact (X8_errors_in_detection_order _ _ _ _ Hne H).
Defined.

Lemma level_missing_inj (l l' : string) :
  Msg.level_missing l = Msg.level_missing l' -> l = l'.
Proof.
  unfold Msg.level_missing. intros H.
  apply (inj (String.app _)) in H. now apply append_cancel_r in H.
Qed.

Lemma labelToStd_none (standards : list Standard) (l : string) :
  labelToStd standards !! l = None <-> forall s, In s standards -> label s <> l.
Proof.
  rewrite labelToStd_last.
  induction standards as [|s rest IH].
  - split; [intros _ s [] | reflexivity].
  - rewrite lastLabelled_cons. split.
    + intros H s' [<-|Hin].
      * destruct (lastLabelled l rest); [discriminate|].
        now destruct (decide (label s = l)).
      * destruct (lastLabelled l rest); [discriminate|].
        now apply (proj1 IH).
    + intros H.
      rewrite (proj2 IH) by (intros s' Hin; apply H; now right).
      destruct (decide (label s = l)) as [E|E]; [|reflexivity].
      exfalso. apply (H s); [now left | exact E].
Qed.

(** X9.  The diagnostic "Unable to parse cut value for next standard"
    is in no result: the next standard of the branch without a match is
    found again among the parsed standards, with its finite cut. *)
Theorem X9_next_standard_always_parsed metric standards options r :
  computePerformance metric standards options = Return r ->
  ~ In Msg.next_unparsable (errorsOf r).
Proof.
  intros Hcall Hin. destruct standards as [|[|s0 rest]].
  - injection Hcall as <-. destruct Hin as [H|[]]. discriminate.
  - injection Hcall as <-. destruct Hin as [H|[]]. discriminate.
  - assert (Hne : s0 :: rest <> []) by discriminate.
    destruct (errors_anatomy _ _ _ _ Hne Hcall)
      as (dir & errs1 & dups & ord & m & entries
          & _ & _ & _ & _ & Fdir & Fd & Fo & _ & _ & Herrs).
    rewrite Herrs in Hin. clear Herrs.
    repeat (apply in_app_or in Hin as [Hin|Hin]).
    + pose proof (Forall_In_impl _ _ _ Fdir Hin) as [H|[H|H]]; discriminate.
    + pose proof (Forall_In_impl _ _ _ Fd Hin) as [l H]. discriminate.
    + unfold missingOf, missingDiags in Hin.
      destruct (Options.levels options) as [lvls|]; [|destruct Hin].
      apply in_map_iff in Hin as (l & H & _). discriminate.
    + pose proof (Forall_In_impl _ _ _ Fo Hin)
        as [(a & b & H)|(a & x & rel & b & y & d & H)]; discriminate.
    + unfold unparsableMetric in Hin.
      destruct (Num.isNaN m); [|destruct Hin].
      destruct Hin as [H|[]]. discriminate.
    + apply in_map_iff in Hin as (e & H & _). discriminate.
    + unfold tailDiag in Hin.
      destruct (Result.nextStandard r), (Result.diffToNext r);
        first [destruct Hin as [H|[]]; discriminate | destruct Hin].
Qed.

Lemma X9_next_standard_always_parsed_witness :
  exists r,
    computePerformance (Scenario.num 15) (array Scenario.lowHigh)
      (Scenario.withLevels (Some Options.dir_auto) ["Low"]) = Return r
    /\ ~ In Msg.next_unparsable (errorsOf r).
Proof.
  exists Scenario.singleLevelResult. split; [vm_compute; reflexivity|].
  refine (X9_next_standard_always_parsed (Scenario.num 15)
            (array Scenario.lowHigh)
            (Scenario.withLevels (Some Options.dir_auto) ["Low"])
            Scenario.singleLevelResult _).
  vm_compute. reflexivity.
Defined.

(** X10.  In throw mode, and for an array of standards that is not
    empty, a result that is returned carries no diagnostic of the
    direction or of the levels: each of its errors is the one of the
    unparsable metric, the one of a standard whose cut parses to NaN, or
    the one of the difference that cannot be computed.  (For an empty
    array the call returns before the metric is read, with the
    diagnostic of the missing standards.) *)
Theorem X10_throw_mode_result_errors metric standards options r :
  standards <> [] ->
  Options.validationMode options = Some Options.throw ->
  computePerformance metric (array standards) options = Return r ->
  forall msg,
    In msg (errorsOf r) ->
    msg = Msg.metric_unparsable
    \/ (exists s, In s standards
                  /\ numeric (parserOf options) (cut s) = Return Num.NaN
                  /\ msg = Msg.cut_unparsable (label s))
    \/ msg = Msg.diff_unparsable.
Proof.
  intros Hne Hthrow Hcall msg Hin.
  destruct (errors_anatomy _ _ _ _ Hne Hcall)
    as (dir & errs1 & dups & ord & m & entries
        & _ & _ & Hstd & Hall & _ & _ & _ & _ & Hnil & Herrs).
  assert (Herrs' : errorsOf r
                   = (errs1 ++ dups ++ missingOf options standards ++ ord)
                       ++ unparsableMetric m ++ unparsableCuts entries
                       ++ tailDiag r)
    by (rewrite Herrs, <- !app_assoc; reflexivity).
  rewrite (Hnil Hthrow) in Herrs'. simpl in Herrs'.
  rewrite Herrs' in Hin. clear Herrs Herrs'.
  repeat (apply in_app_or in Hin as [Hin|Hin]).
  - unfold unparsableMetric in Hin. destruct (Num.isNaN m); [|destruct Hin].
    destruct Hin as [<-|[]]. now left.
  - apply in_map_iff in Hin as (e & <- & He).
    apply filter_In in He as [He Hnan].
    pose proof (Forall_In_impl _ _ _ Hall He) as Hnum. simpl in Hnum.
    right. left. exists (std e). repeat split.
    + rewrite <- Hstd. now apply in_map.
    + rewrite Hnum. now destruct (cutNum e).
  - unfold tailDiag in Hin.
    destruct (Result.nextStandard r), (Result.diffToNext r);
      first [destruct Hin as [<-|[]]; now auto | destruct Hin].
Qed.

Lemma X10_throw_mode_result_errors_witness :
  exists r,
    computePerformance (Scenario.num 12)
      (array [mkStandard "A" (VStr "not-a-number")])
      (Scenario.withMode Options.throw) = Return r
    /\ forall msg,
         In msg (errorsOf r) ->
         msg = Msg.metric_unparsable
         \/ (exists s, In s [mkStandard "A" (VStr "not-a-number")]
                       /\ numeric defaultParser (cut s) = Return Num.NaN
                       /\ msg = Msg.cut_unparsable (label s))
         \/ msg = Msg.diff_unparsable.
Proof.
  eexists. split; [vm_compute; reflexivity|].
  refine (X10_throw_mode_result_errors (Scenario.num 12)
            [mkStandard "A" (VStr "not-a-number")]
            (Scenario.withMode Options.throw) _ _ _ _).
  - discriminate.
  - reflexivity.
  - vm_compute. reflexivity.
Defined.

(** ** Unparsable values and missing levels *)

(** X12.  For an array of standards that is not empty, a metric that
    parses to NaN gives the result 'unknown', index -1, with no next
    standard, no next cut and no difference, and with the diagnostic of
    the unparsable metric.  (For an empty array the call returns before
    the metric is parsed.) *)
Theorem X12_unparsable_metric metric standards options r m :
  standards <> [] ->
  computePerformance metric (array standards) options = Return r ->
  numeric (parserOf options) metric = Return m ->
  Num.isNaN m = true ->
  Result.label r = "unknown"
  /\ Result.index r = (-1)%Z
  /\ Result.standard r = None
  /\ Result.nextStandard r = None
  /\ Result.nextCut r = None
  /\ Result.diffToNext r = None
  /\ Result.diffToNextFormatted r = None
  /\ In Msg.metric_unparsable (errorsOf r).
Proof.
  intros Hne Hcall Hmetric Hnan.
  apply computePerformance_inv in Hcall as [[-> _]|Hcall]; [contradiction|].
  open_call Hcall; rewrite Hmetric in Hm; injection Hm as <-.
  - assert (Hfin : Num.isFinite m = false) by now destruct m.
    rewrite Hfin in *. simpl in *. injection Hcut as <-.
    rewrite Hdiff in Hfmt.
    repeat split; try assumption.
    rewrite Herrs. apply in_or_app. right. apply in_or_app. left.
    unfold unparsableMetric. rewrite Hnan. now left.
  - apply filter_In in Hbest as [_ Hp].
    rewrite Hnan in Hp. simpl in Hp. rewrite andb_false_r in Hp. discriminate.
Qed.

Lemma X12_unparsable_metric_witness :
  exists r,
    computePerformance (VStr "not-a-time") (array Scenario.lowHigh) Options.none
    = Return r
    /\ Result.label r = "unknown"
    /\ In Msg.metric_unparsable (errorsOf r).
Proof.
  eexists. split; [vm_compute; reflexivity|].
  assert (Hne : Scenario.lowHigh <> []) by discriminate.
  refine ((fun H => conj (proj1 H) (proj2 (proj2 (proj2 (proj2 (proj2 (proj2 (proj2 H))))))))
            (X12_unparsable_metric (VStr "not-a-time") Scenario.lowHigh
               Options.none _ Num.NaN Hne _ _ _)).
  - vm_compute. reflexivity.
  - vm_compute. reflexivity.
  - reflexivity.
Defined.

(** X13.  Every standard whose cut parses to NaN has its diagnostic in
    the errors of the result. *)
Theorem X13_unparsable_cut_reported metric standards options r s :
  computePerformance metric (array standards) options = Return r ->
  In s standards ->
  numeric (parserOf options) (cut s) = Return Num.NaN ->
  In (Msg.cut_unparsable (label s)) (errorsOf r).
Proof.
  intros Hcall Hin Hnan.
  assert (Hne : standards <> []) by (intros ->; destruct Hin).
  destruct (errors_anatomy _ _ _ _ Hne Hcall)
    as (dir & errs1 & dups & ord & m & entries
        & _ & _ & Hstd & Hall & _ & _ & _ & _ & _ & Herrs).
  rewrite Herrs. do 5 (apply in_or_app; right). apply in_or_app. left.
  destruct (entries_cover _ _ _ Hstd Hin) as (e & He & <-).
  pose proof (Forall_In_impl _ _ _ Hall He) as Hnum. simpl in Hnum.
  rewrite Hnan in Hnum. injection Hnum as Hnum.
  unfold unparsableCuts.
  apply (in_map (fun e => Msg.cut_unparsable (label (std e)))).
  apply filter_In. split; [exact He | now rewrite <- Hnum].
Qed.

Lemma X13_unparsable_cut_reported_witness :
  exists r,
    computePerformance (VStr "25")
      (array [mkStandard "X" (VStr "not-a-number"); mkStandard "Y" (VStr "30")])
      Options.none = Return r
    /\ In (Msg.cut_unparsable "X") (errorsOf r).
Proof.
  eexists. split; [vm_compute; reflexivity|].
  refine (X13_unparsable_cut_reported (VStr "25")
            [mkStandard "X" (VStr "not-a-number"); mkStandard "Y" (VStr "30")]
            Options.none _ (mkStandard "X" (VStr "not-a-number")) _ _ _).
  - vm_compute. reflexivity.
  - now left.
  - vm_compute. reflexivity.
Defined.

(** X14.  For an array of standards that is not empty, the diagnostic
    of a missing level is in the errors of a result exactly for the
    levels of the options that are the label of no standard.  (For an
    empty array the call returns before the levels are read.) *)
Theorem X14_missing_level_reported metric standards options r lvl :
  standards <> [] ->
  computePerformance metric (array standards) options = Return r ->
  In (Msg.level_missing lvl) (errorsOf r)
  <-> exists lvls,
        Options.levels options = Some lvls
        /\ In lvl lvls
        /\ forall s, In s standards -> label s <> lvl.
Proof.
  intros Hne Hcall.
  destruct (errors_anatomy _ _ _ _ Hne Hcall)
    as (dir & errs1 & dups & ord & m & entries
        & _ & _ & _ & _ & Fdir & Fd & Fo & _ & _ & Herrs).
  rewrite Herrs. clear Herrs. split.
  - intros Hin.
    repeat (apply in_app_or in Hin as [Hin|Hin]).
    + pose proof (Forall_In_impl _ _ _ Fdir Hin) as [H|[H|H]]; discriminate.
    + pose proof (Forall_In_impl _ _ _ Fd Hin) as [l H]. discriminate.
    + unfold missingOf, missingDiags in Hin.
      destruct (Options.levels options) as [lvls|]; [|destruct Hin].
      apply in_map_iff in Hin as (l & H & Hl).
      apply level_missing_inj in H as ->.
      apply filter_In in Hl as [Hl Habs].
      exists lvls. repeat split; try assumption.
      apply labelToStd_none. unfold absent in Habs.
      now destruct (labelToStd standards !! lvl).
    + pose proof (Forall_In_impl _ _ _ Fo Hin)
        as [(a & b & H)|(a & x & rel & b & y & d & H)]; discriminate.
    + unfold unparsableMetric in Hin.
      destruct (Num.isNaN m); [|destruct Hin].
      destruct Hin as [H|[]]. discriminate.
    + apply in_map_iff in Hin as (e & H & _). discriminate.
    + unfold tailDiag in Hin.
      destruct (Result.nextStandard r), (Result.diffToNext r);
        first [destruct Hin as [H|[]]; discriminate | destruct Hin].
  - intros (lvls & Hl & Hin & Hno).
    do 2 (apply in_or_app; right). apply in_or_app. left.
    unfold missingOf, missingDiags. rewrite Hl.
    apply in_map, filter_In. split; [exact Hin|].
    unfold absent. now rewrite (proj2 (labelToStd_none standards lvl) Hno).
Qed.

Lemma X14_missing_level_reported_witness :
  exists r,
    computePerformance (Scenario.num 15) (array Scenario.lowHigh)
      (Scenario.withLevels None ["Low"; "Mid"; "High"]) = Return r
    /\ (In (Msg.level_missing "Mid") (errorsOf r)
        <-> exists lvls,
              Some ["Low"; "Mid"; "High"] = Some lvls
              /\ In "Mid" lvls
              /\ forall s, In s Scenario.lowHigh -> label s <> "Mid").
Proof.
  eexists. split; [vm_compute; reflexivity|].
  refine (X14_missing_level_reported (Scenario.num 15) Scenario.lowHigh
            (Scenario.withLevels None ["Low"; "Mid"; "High"]) _ "Mid" _ _).
  - discriminate.
  - vm_compute. reflexivity.
Defined.

(** ** The ordering of the levels *)

Section Ordering.
Variable parser : value -> completion number.

Lemma checkAgainst_reports dir m lowLabel highs errs errs'
    highLabel lowStd highStd lowCut highCut msg :
  checkAgainst parser dir m lowLabel highs errs = Return errs' ->
  In highLabel highs ->
  m !! lowLabel = Some lowStd -> m !! highLabel = Some highStd ->
  numeric parser (cut lowStd) = Return lowCut ->
  numeric parser (cut highStd) = Return highCut ->
  pairDiag dir lowLabel lowCut highLabel highCut = Some msg ->
  In msg errs'.
Proof.
  intros H Hin Hlow Hhigh Hlc Hhc Hmsg. revert errs H.
  induction highs as [|h rest IH]; intros errs H; [destruct Hin|].
  simpl in H. rewrite Hlow in H.
  destruct Hin as [->|Hin].
  - rewrite Hhigh, Hlc in H. simpl in H. rewrite Hhc in H. simpl in H.
    assert (Hpush : forall errs0,
              checkAgainst parser dir m lowLabel rest (errs0 ++ [msg]) = Return errs' ->
              In msg errs').
    { intros errs0 H'. apply checkAgainst_ordering in H' as (ord & -> & _).
      apply in_or_app. left. apply in_or_app. right. now left. }
    unfold pairDiag in Hmsg.
    destruct (Num.isNaN lowCut || Num.isNaN highCut).
    + injection Hmsg as <-. now apply (Hpush errs).
    + destruct dir.
      * destruct (Num.lt lowCut highCut); [discriminate|].
        injection Hmsg as <-. now apply (Hpush errs).
      * destruct (Num.gt lowCut highCut); [discriminate|].
        injection Hmsg as <-. now apply (Hpush errs).
  - destruct (m !! h) as [hStd|]; [|now apply (IH Hin errs)].
    inv_bind H. inv_bind H.
    destruct (Num.isNaN a || Num.isNaN a0); [now apply (IH Hin _ H)|].
    destruct dir; now apply (IH Hin _ H).
Qed.

Lemma checkOrdering_reports dir m pre lowLabel rest errs errs'
    highLabel lowStd highStd lowCut highCut msg :
  checkOrdering parser dir m (pre ++ lowLabel :: rest) errs = Return errs' ->
  In highLabel rest ->
  m !! lowLabel = Some lowStd -> m !! highLabel = Some highStd ->
  numeric parser (cut lowStd) = Return lowCut ->
  numeric parser (cut highStd) = Return highCut ->
  pairDiag dir lowLabel lowCut highLabel highCut = Some msg ->
  In msg errs'.
Proof.
  intros H Hin Hlow Hhigh Hlc Hhc Hmsg. revert errs H.
  induction pre as [|p pre IH]; intros errs H; simpl in H; inv_bind H.
  - pose proof (checkAgainst_reports _ _ _ _ _ _ _ _ _ _ _ _
                  Hret Hin Hlow Hhigh Hlc Hhc Hmsg) as Ha.
    apply checkOrdering_ordering in H as (ord & -> & _).
    apply in_or_app. now left.
  - now apply (IH _ H).
Qed.
End Ordering.

(** X15.  For two levels, one before the other in [levels], that both
    are labels of standards: when one of the two cuts parses to NaN, or
    when the two cuts are not in the strict order of the direction (the
    earlier level above the later one under 'lower', below it under
    'higher'), the diagnostic of the pair is in the errors of the
    result. *)
Theorem X15_ordering_violation_reported metric standards options r dir errs
    pre lowLabel rest highLabel lowStd highStd lowCut highCut msg :
  computePerformance metric (array standards) options = Return r ->
  resolveDirection (parserOf options) standards (Options.direction options)
    (Options.levels options) = Return (dir, errs) ->
  Options.levels options = Some (pre ++ lowLabel :: rest) ->
  In highLabel rest ->
  labelToStd standards !! lowLabel = Some lowStd ->
  labelToStd standards !! highLabel = Some highStd ->
  numeric (parserOf options) (cut lowStd) = Return lowCut ->
  numeric (parserOf options) (cut highStd) = Return highCut ->
  pairDiag dir lowLabel lowCut highLabel highCut = Some msg ->
  In msg (errorsOf r).
Proof.
  intros Hcall Hd Hl Hin Hlow Hhigh Hlc Hhc Hmsg.
  assert (Hne : standards <> []).
  { intros ->. unfold labelToStd in Hlow. simpl in Hlow.
    rewrite lookup_empty in Hlow. discriminate. }
  apply computePerformance_inv in Hcall as [[-> _]|Hcall]; [contradiction|].
  assert (Hgrow : exists more, errorsOf r = more
                    /\ forall errs2,
                         validateLevels (parserOf options) dir standards
                           (Options.levels options) errs = Return errs2 ->
                         forall x, In x errs2 -> In x more).
  { open_call Hcall; rewrite Hd in Hdir; injection Hdir as <- <-;
      (eexists; split; [reflexivity|]); intros errs2' Hv x Hx;
      rewrite Hval in Hv; injection Hv as <-; rewrite Herrs;
      repeat (apply in_or_app; left); exact Hx. }
  destruct Hgrow as (more & -> & Hgrow).
  apply computeWith_cases in Hcall
    as (dir0 & errs1 & errs2 & _ & _ & Hdir & Hval & _).
  rewrite Hd in Hdir. injection Hdir as <- <-.
  apply (Hgrow _ Hval).
  rewrite Hl in Hval.
  apply validateLevels_exact in Hval as (dups & ord & _ & _ & _ & Hcheck).
  exact (checkOrdering_reports _ _ _ _ _ _ _ _ _ _ _ _ _ _
           Hcheck Hin Hlow Hhigh Hlc Hhc Hmsg).
Qed.

Lemma X15_ordering_violation_reported_witness :
  exists r,
    computePerformance (Scenario.num 82) (array Scenario.badThresholds)
      (Scenario.withLevels (Some Options.dir_higher)
         ["Poor"; "Average"; "Good"; "Excellent"]) = Return r
    /\ In ("Ordering violation: level 'Average' (cut=85) should be < 'Good' "
           +:+ "(cut=80) for direction 'higher'") (errorsOf r).
Proof.
  eexists. split; [vm_compute; reflexivity|].
  refine (X15_ordering_violation_reported (Scenario.num 82)
            Scenario.badThresholds
            (Scenario.withLevels (Some Options.dir_higher)
               ["Poor"; "Average"; "Good"; "Excellent"])
            _ higher [] ["Poor"] "Average" ["Good"; "Excellent"] "Good"
            (mkStandard "Average" (Scenario.num 85))
            (mkStandard "Good" (Scenario.num 80))
            (Num.of_Z 85) (Num.of_Z 80) _ _ _ _ _ _ _ _ _ _).
  - vm_compute. reflexivity.
  - reflexivity.
  - reflexivity.
  - now left.
  - vm_compute. reflexivity.
  - vm_compute. reflexivity.
  - reflexivity.
  - reflexivity.
  - vm_compute. reflexivity.
Defined.

(** ** Hooks that do not throw *)

Section Totality.
Variable parser : value -> completion number.
Variable formatAbsolute : number -> completion string.
Variable formatRelative : number -> completion string.
Hypothesis parser_returns : returns parser.
Hypothesis absolute_returns : returns formatAbsolute.
Hypothesis relative_returns : returns formatRelative.

Lemma numeric_returns (x : value) : exists n, numeric parser x = Return n.
Proof using All. destruct x; simpl; eauto; apply parser_returns. Qed.

Lemma levelCuts_returns m lvls cuts :
  exists inferred, levelCuts parser m lvls cuts = Return inferred.
Proof using All.
  revert cuts. induction lvls as [|lvl rest IH]; intros cuts; [simpl; eauto|].
  destruct (m !! lvl) as [s|] eqn:Hs; [|simpl; rewrite Hs; eauto].
  destruct (cut s) eqn:E; [| |simpl; rewrite Hs, E; eauto|];
    (rewrite (levelCuts_step _ _ _ _ _ _ Hs) by (rewrite E; discriminate));
    destruct (numeric_returns (cut s)) as [n ->]; simpl;
    destruct (Num.isNaN n); eauto.
Qed.

Lemma resolveDirection_returns standards direction levels :
  exists dir errs,
    resolveDirection parser standards direction levels = Return (dir, errs).
Proof using All.
  unfold resolveDirection.
  destruct direction as [[]|]; eauto.
  destruct levels as [lvls|]; eauto.
  destruct (levelCuts_returns (labelToStd standards) lvls []) as [inferred ->].
  simpl. destruct inferred as [cuts|]; eauto.
  destruct (monotonicity cuts) as [[] []]; simpl; eauto.
Qed.

Lemma checkAgainst_returns dir m lowLabel highs errs :
  exists errs', checkAgainst parser dir m lowLabel highs errs = Return errs'.
Proof using All.
  revert errs. induction highs as [|h rest IH]; intros errs; simpl; eauto.
  destruct (m !! lowLabel) as [lowStd|]; [|apply IH].
  destruct (m !! h) as [highStd|]; [|apply IH].
  destruct (numeric_returns (cut lowStd)) as [lc ->].
  destruct (numeric_returns (cut highStd)) as [hc ->]. simpl.
  destruct (Num.isNaN lc || Num.isNaN hc); [apply IH|].
  destruct dir; apply IH.
Qed.

Lemma checkOrdering_returns dir m lvls errs :
  exists errs', checkOrdering parser dir m lvls errs = Return errs'.
Proof using All.
  revert errs. induction lvls as [|l rest IH]; intros errs; simpl; eauto.
  destruct (checkAgainst_returns dir m l rest errs) as [errs1 ->]. simpl.
  apply IH.
Qed.

Lemma validateLevels_returns dir standards levels errs :
  exists errs', validateLevels parser dir standards levels errs = Return errs'.
Proof using All.
  unfold validateLevels. destruct levels as [lvls|]; eauto.
  destruct (indexLabels standards ∅ errs) as [m errs1].
  apply checkOrdering_returns.
Qed.

Lemma parseStandards_returns i standards errs :
  exists entries errs',
    parseStandards parser i standards errs = Return (entries, errs').
Proof using All.
  revert i errs. induction standards as [|s rest IH]; intros i errs; simpl; eauto.
  destruct (numeric_returns (cut s)) as [c ->]. simpl.
  destruct (IH (S i) (if Num.isNaN c
                      then errs ++ [Msg.cut_unparsable (label s)] else errs))
    as (entries & errs' & ->).
  simpl. eauto.
Qed.

Lemma format_returns (d : Diff.t) :
  exists f, format formatAbsolute formatRelative d = Return f.
Proof using All.
  unfold format.
  destruct (absolute_returns (Diff.absolute d)) as [a ->].
  destruct (relative_returns (Diff.relative d)) as [b ->]. simpl. eauto.
Qed.

(** The next cut of a standard that [nextBetter] found: its cut is
    finite, so that [String] is not applied to it. *)
Lemma buildNextCutObject_returns dir entries reference :
  Forall (fun e => numeric parser (cut (std e)) = Return (cutNum e)) entries ->
  exists nc,
    buildNextCutObject parser formatAbsolute
      (std <$> nextBetter dir entries reference) = Return nc.
Proof using All.
  intros Hall.
  destruct (nextBetter dir entries reference) as [e|] eqn:Hn; [|simpl; eauto].
  destruct (nextBetter_spec _ _ _ _ Hn) as [Hin Hfin].
  pose proof (Forall_In_impl _ _ _ Hall Hin) as Hnum. simpl in Hnum.
  simpl. rewrite Hnum. simpl. rewrite Hfin.
  destruct (absolute_returns (cutNum e)) as [c Hc].
  destruct (cut (std e)); try rewrite Hc; simpl; eauto.
Qed.

Lemma unmatched_returns dir entries m errs :
  Forall (fun e => numeric parser (cut (std e)) = Return (cutNum e)) entries ->
  exists r,
    unmatched parser formatAbsolute formatRelative dir entries m errs = Return r.
Proof using All.
  intros Hall. unfold unmatched.
  destruct (Num.isFinite m); [|simpl; eauto].
  destruct (buildNextCutObject_returns dir entries m Hall) as [nc Hnc].
  destruct (nextBetter dir entries m) as [e|]; [|simpl; eauto].
  destruct (Num.isFinite (cutNumOf entries e)).
  - destruct (format_returns (directedDiff dir (cutNumOf entries e) m))
      as [f ->].
    simpl. simpl in Hnc. rewrite Hnc. simpl. eauto.
  - simpl. simpl in Hnc. rewrite Hnc. simpl. eauto.
Qed.

Lemma matched_returns dir entries m best errs :
  Forall (fun e => numeric parser (cut (std e)) = Return (cutNum e)) entries ->
  exists r,
    matched parser formatAbsolute formatRelative dir entries m best errs
    = Return r.
Proof using All.
  intros Hall. unfold matched.
  destruct (buildNextCutObject_returns dir entries (cutNum best) Hall)
    as [nc Hnc].
  destruct (nextBetter dir entries (cutNum best)) as [e|].
  - destruct (Num.isFinite (cutNumOf entries e) && Num.isFinite m).
    + destruct (format_returns (directedDiff dir (cutNumOf entries e) m))
        as [f ->].
      simpl. simpl in Hnc. rewrite Hnc. simpl. eauto.
    + simpl. simpl in Hnc. rewrite Hnc. simpl. eauto.
  - simpl. eauto.
Qed.

(** With hooks that do not throw, the function throws only the
    validation error of the throw mode. *)
Lemma computeWith_outcome metric standards direction levels mode :
  exists dir errs1 errs2,
    resolveDirection parser standards direction levels = Return (dir, errs1)
    /\ validateLevels parser dir standards levels errs1 = Return errs2
    /\ ((mode = Some Options.throw /\ errs2 <> []
         /\ computeWith parser formatAbsolute formatRelative metric standards
              direction levels mode = Throw (Msg.validation_errors errs2))
        \/ ((mode <> Some Options.throw \/ errs2 = [])
            /\ exists r,
                 computeWith parser formatAbsolute formatRelative metric
                   standards direction levels mode = Return r)).
Proof using All.
  destruct (resolveDirection_returns standards direction levels)
    as (dir & errs1 & Hdir).
  destruct (validateLevels_returns dir standards levels errs1) as (errs2 & Hval).
  exists dir, errs1, errs2. split; [exact Hdir|]. split; [exact Hval|].
  unfold computeWith. rewrite Hdir. simpl. rewrite Hval. simpl.
  assert (Hrest : exists r,
    (metricNum ← numeric parser metric;
     let errors :=
       if Num.isNaN metricNum then errs2 ++ [Msg.metric_unparsable] else errs2 in
     '(numericStandards, errors) ← parseStandards parser 0 standards errors;
     let matches :=
       List.filter (fun e => negb (Num.isNaN (cutNum e))
                             && negb (Num.isNaN metricNum)
                             && isMatchNum metricNum (cutNum e) dir)
         numericStandards in
     match matches with
     | [] => unmatched parser formatAbsolute formatRelative dir numericStandards
               metricNum errors
     | first :: _ =>
         let sorted :=
           match dir with
           | higher => sortBy (fun a b => Num.sub (cutNum b) (cutNum a)) matches
           | lower => sortBy (fun a b => Num.sub (cutNum a) (cutNum b)) matches
           end in
         let bestMatch := List.hd first sorted in
         matched parser formatAbsolute formatRelative dir numericStandards
           metricNum bestMatch errors
     end) = Return r).
  { destruct (numeric_returns metric) as [m ->]. simpl.
    destruct (parseStandards_returns 0 standards
                (if Num.isNaN m then errs2 ++ [Msg.metric_unparsable] else errs2))
      as (entries & errs3 & Hparse).
    pose proof (parseStandards_exact _ _ _ _ _ _ Hparse) as (_ & _ & Hall & _).
    rewrite Hparse. simpl.
    destruct (List.filter _ entries);
      [now apply unmatched_returns | now apply matched_returns]. }
  destruct mode as [[]|].
  - right. split; [left; discriminate | exact Hrest].
  - destruct errs2 as [|e errs2].
    + right. split; [now right | exact Hrest].
    + left. repeat split. discriminate.
  - right. split; [left; discriminate | exact Hrest].
Qed.
End Totality.

Lemma default_hooks_return :
  returns defaultParser /\ returns defaultAbsolute /\ returns defaultRelative.
Proof. repeat split; intros x; eexists; reflexivity. Qed.

(** X11.  When the parser and the two formatters never throw (as the
    defaults do), a call with standards throws in one case only: in
    throw mode, when the direction and the levels gave diagnostics, and
    then it throws the error "Validation errors: " followed by these
    diagnostics joined by "; ".  In every other case it returns a
    result. *)
Theorem X11_only_throw_mode_throws metric standards options :
  standards <> [] ->
  returns (parserOf options) ->
  returns (absoluteOf options) ->
  returns (relativeOf options) ->
  exists dir errs1 errs2,
    resolveDirection (parserOf options) standards (Options.direction options)
      (Options.levels options) = Return (dir, errs1)
    /\ validateLevels (parserOf options) dir standards (Options.levels options)
         errs1 = Return errs2
    /\ ((Options.validationMode options = Some Options.throw /\ errs2 <> []
         /\ computePerformance metric (array standards) options
            = Throw ("Validation errors: " +:+ String.concat "; " errs2))
        \/ ((Options.validationMode options <> Some Options.throw \/ errs2 = [])
            /\ exists r,
                 computePerformance metric (array standards) options = Return r)).
Proof.
  intros Hne Hp Ha Hr.
  destruct standards as [|s rest]; [contradiction|].
  exact (computeWith_outcome _ _ _ Hp Ha Hr metric (s :: rest)
           (Options.direction options) (Options.levels options)
           (Options.validationMode options)).
Qed.

Lemma X11_only_throw_mode_throws_witness :
  exists dir errs1 errs2,
    resolveDirection defaultParser
      [mkStandard "A" (VStr "10"); mkStandard "B" (VStr "50")]
      (Some Options.dir_higher) (Some ["B"; "A"]) = Return (dir, errs1)
    /\ validateLevels defaultParser dir
         [mkStandard "A" (VStr "10"); mkStandard "B" (VStr "50")]
         (Some ["B"; "A"]) errs1 = Return errs2
    /\ ((Some Options.throw = Some Options.throw /\ errs2 <> []
         /\ computePerformance (Scenario.num 7)
              (array [mkStandard "A" (VStr "10"); mkStandard "B" (VStr "50")])
              Scenario.scenario5
            = Throw ("Validation errors: " +:+ String.concat "; " errs2))
        \/ ((Some Options.throw <> Some Options.throw \/ errs2 = [])
            /\ exists r,
                 computePerformance (Scenario.num 7)
                   (array [mkStandard "A" (VStr "10"); mkStandard "B" (VStr "50")])
                   Scenario.scenario5 = Return r)).
Proof.
  refine (X11_only_throw_mode_throws (Scenario.num 7)
            [mkStandard "A" (VStr "10"); mkStandard "B" (VStr "50")]
            Scenario.scenario5 _ _ _ _).
  - discriminate.
  - apply default_hooks_return.
  - apply default_hooks_return.
  - apply default_hooks_return.
Defined.

(** ** A call that has nothing to report *)

(** With a finite metric, a next standard comes with its difference. *)
Lemma tail_finite metric standards options r m :
  computePerformance metric (array standards) options = Return r ->
  numeric (parserOf options) metric = Return m ->
  Num.isFinite m = true ->
  tailDiag r = [].
Proof.
  intros Hcall Hmetric Hfin.
  apply computePerformance_inv in Hcall as [[-> ->]|Hcall]; [reflexivity|].
  open_call Hcall; rewrite Hmetric in Hm; injection Hm as <-;
    unfold tailDiag; rewrite Hnext, Hdiff, Hfin;
    now destruct (nextBetter dir0 entries _).
Qed.

(** X16.  A call with standards, without levels and with a direction
    other than 'auto', has no errors and is valid as soon as the metric
    parses to a finite number and no cut parses to NaN. *)
Theorem X16_nothing_to_report metric standards options r m :
  standards <> [] ->
  computePerformance metric (array standards) options = Return r ->
  Options.levels options = None ->
  Options.direction options <> Some Options.dir_auto ->
  numeric (parserOf options) metric = Return m ->
  Num.isFinite m = true ->
  (forall s c, In s standards ->
               numeric (parserOf options) (cut s) = Return c ->
               Num.isNaN c = false) ->
  errorsOf r = [] /\ Validation.valid (Result.validation r) = true.
Proof.
  intros Hne Hcall Hlvls Hgiven Hmetric Hfin Hcuts.
  assert (Hclean : errorsOf r = []).
  { pose proof (tail_finite _ _ _ _ _ Hcall Hmetric Hfin) as Htail.
    destruct (errors_anatomy _ _ _ _ Hne Hcall)
      as (dir & errs1 & dups & ord & m' & entries
          & Hres & Hm & Hstd & Hall & _ & _ & _ & Hnone & _ & Herrs).
    rewrite Hmetric in Hm. injection Hm as <-.
    apply resolveDirection_diags in Hres as [_ Hres].
    destruct (Hnone Hlvls) as [-> ->]. rewrite (Hres Hgiven) in Herrs.
    unfold missingOf in Herrs. rewrite Hlvls, Htail in Herrs.
    unfold unparsableMetric in Herrs.
    assert (Hnan : Num.isNaN m = false) by (now destruct m).
    rewrite Hnan in Herrs. simpl in Herrs. rewrite app_nil_r in Herrs.
    rewrite Herrs. unfold unparsableCuts.
    assert (Hfilter : List.filter (fun e => Num.isNaN (cutNum e)) entries = []).
    { clear Herrs. rewrite <- Hstd in Hcuts. clear Hstd Hcall Hne Htail.
      induction entries as [|e entries IH]; [reflexivity|].
      apply Forall_cons in Hall as [He Hall]. simpl.
      rewrite (Hcuts (std e) (cutNum e) (or_introl eq_refl) He).
      apply IH; [|exact Hall].
      intros s c Hin. apply Hcuts. now right. }
    now rewrite Hfilter. }
  split; [exact Hclean|].
  apply computePerformance_inv in Hcall as [[-> _]|Hcall]; [contradiction|].
  clear Hgiven Hmetric.
  open_call Hcall; rewrite Hvalid; apply bool_decide_eq_true; exact Hclean.
Qed.

Lemma X16_nothing_to_report_witness :
  exists r,
    computePerformance (VStr "2:30.00") (array Scenario.timeStandards)
      Options.none = Return r
    /\ errorsOf r = [] /\ Validation.valid (Result.validation r) = true.
Proof.
  exists Scenario.slowResult. split; [vm_compute; reflexivity|].
  refine (X16_nothing_to_report (VStr "2:30.00") Scenario.timeStandards
            Options.none Scenario.slowResult (Num.of_Z 150) _ _ _ _ _ _ _).
  - discriminate.
  - vm_compute. reflexivity.
  - reflexivity.
  - discriminate.
  - vm_compute. reflexivity.
  - reflexivity.
  - intros s c [<-|[<-|[<-|[]]]] [= <-]; reflexivity.
Defined.

(** ** The transformer, and the function on what it returns *)

(** X17.  Without a level order, or with an empty one, the transformer
    returns one standard for each key of the mapping (the keys of an
    object are distinct), in the order of the keys, with the string that
    the mapping holds for the key as its cut. *)
Theorem X17_transformer_fallback (m : mapping) (levelsOrder : option (list string)) :
  NoDup (keys m) ->
  levelsOrder = None \/ levelsOrder = Some [] ->
  transformSwimmingStandards m levelsOrder
  = map (fun kv => mkStandard (fst kv) (VStr (snd kv))) (own m).
Proof.
  intros Hnd Hl.
  assert (H : transformSwimmingStandards m levelsOrder
              = map (fun l => mkStandard l (get m l)) (keys m))
    by (destruct Hl as [->| ->]; reflexivity).
  unfold keys in H. rewrite H, map_map. apply map_ext_in. intros [k v] Hin. simpl.
  now rewrite (get_In m k v Hnd Hin).
Qed.

Lemma X17_transformer_fallback_witness :
  transformSwimmingStandards Scenario.swimJson (Some [])
  = map (fun kv => mkStandard (fst kv) (VStr (snd kv))) (own Scenario.swimJson).
Proof.
  refine (X17_transformer_fallback Scenario.swimJson (Some []) _ _).
  - apply (bool_decide_unpack (NoDup (keys Scenario.swimJson))).
    vm_compute. reflexivity.
  - now right.
Defined.

Lemma transformed_labels (m : mapping) (lvls : list string) :
  lvls <> [] ->
  transformSwimmingStandards m (Some lvls)
  = map (fun l => mkStandard l (get m l)) lvls.
Proof. destruct lvls; [contradiction | reflexivity]. Qed.

(** X18.  When the standards are the ones that the transformer returns
    for a level order, and the options declare the same levels, no level
    is reported as missing from the standards. *)
Theorem X18_transformed_levels_present metric (m : mapping) lvls options r lvl :
  lvls <> [] ->
  Options.levels options = Some lvls ->
  computePerformance metric
    (array (transformSwimmingStandards m (Some lvls))) options = Return r ->
  ~ In (Msg.level_missing lvl) (errorsOf r).
Proof.
  intros Hne Hlvls Hcall Hin.
  rewrite (transformed_labels m lvls Hne) in Hcall.
  assert (Hne' : map (fun l => mkStandard l (get m l)) lvls <> [])
    by (destruct lvls; [contradiction | discriminate]).
  destruct (errors_anatomy _ _ _ _ Hne' Hcall)
    as (dir & errs1 & dups & ord & m' & entries
        & _ & _ & _ & _ & Fdir & Fd & Fo & _ & _ & Herrs).
  rewrite Herrs in Hin. clear Herrs.
  repeat (apply in_app_or in Hin as [Hin|Hin]).
  - pose proof (Forall_In_impl _ _ _ Fdir Hin) as [H|[H|H]]; discriminate.
  - pose proof (Forall_In_impl _ _ _ Fd Hin) as [l H]. discriminate.
  - unfold missingOf, missingDiags in Hin. rewrite Hlvls in Hin.
    apply in_map_iff in Hin as (l & H & Hl).
    apply level_missing_inj in H as ->.
    apply filter_In in Hl as [Hl Habs].
    unfold absent in Habs.
    destruct (labelToStd _ !! lvl) eqn:E; [discriminate|].
    apply (proj1 (labelToStd_none _ _) E (mkStandard lvl (get m lvl)));
      [|reflexivity].
    now apply (in_map (fun l => mkStandard l (get m l))).
  - pose proof (Forall_In_impl _ _ _ Fo Hin)
      as [(a & b & H)|(a & x & rel & b & y & d & H)]; discriminate.
  - unfold unparsableMetric in Hin.
    destruct (Num.isNaN m'); [|destruct Hin].
    destruct Hin as [H|[]]. discriminate.
  - apply in_map_iff in Hin as (e & H & _). discriminate.
  - unfold tailDiag in Hin.
    destruct (Result.nextStandard r), (Result.diffToNext r);
      first [destruct Hin as [H|[]]; discriminate | destruct Hin].
Qed.

Lemma X18_transformed_levels_present_witness :
  exists r,
    computePerformance (VStr "1:03.00")
      (array (transformSwimmingStandards Scenario.swimJson
                (Some Scenario.levelsOrder)))
      (Scenario.withLevels (Some Options.dir_lower) Scenario.levelsOrder)
    = Return r
    /\ ~ In (Msg.level_missing "AA") (errorsOf r).
Proof.
  eexists. split; [vm_compute; reflexivity|].
  refine (X18_transformed_levels_present (VStr "1:03.00") Scenario.swimJson
            Scenario.levelsOrder
            (Scenario.withLevels (Some Options.dir_lower) Scenario.levelsOrder)
            _ "AA" _ _ _).
  - discriminate.
  - reflexivity.
  - vm_compute. reflexivity.
Defined.

(** X19.  A level of the order that is no own key of the mapping gets
    from the transformer the cut that the mapping inherits for that
    name.  When this is [undefined] (nothing is inherited) or a value
    that is neither a number nor a string (such as the function that an
    object literal inherits as 'constructor'), the function with the
    default parser reports that the cut of this standard cannot be
    parsed. *)
Theorem X19_level_without_time_reported metric (m : mapping) lvls options r lvl :
  In lvl lvls ->
  ~ In lvl (keys m) ->
  inherited m lvl = VUndefined \/ (exists o, inherited m lvl = VOther o) ->
  Options.parser options = None ->
  computePerformance metric
    (array (transformSwimmingStandards m (Some lvls))) options = Return r ->
  In (mkStandard lvl (inherited m lvl)) (transformSwimmingStandards m (Some lvls))
  /\ In (Msg.cut_unparsable lvl) (errorsOf r).
Proof.
  intros Hin Hkey Hother Hparser Hcall.
  assert (Hne : lvls <> []) by (intros ->; destruct Hin).
  assert (Hs : In (mkStandard lvl (inherited m lvl))
                 (transformSwimmingStandards m (Some lvls))).
  { rewrite (transformed_labels m lvls Hne).
    rewrite <- (get_inherited m lvl Hkey).
    now apply (in_map (fun l => mkStandard l (get m l))). }
  split; [exact Hs|].
  assert (Hne' : transformSwimmingStandards m (Some lvls) <> [])
    by (intros E; rewrite E in Hs; destruct Hs).
  destruct (errors_anatomy _ _ _ _ Hne' Hcall)
    as (dir & errs1 & dups & ord & m' & entries
        & _ & _ & Hstd & Hall & _ & _ & _ & _ & _ & Herrs).
  rewrite Herrs. do 5 (apply in_or_app; right). apply in_or_app. left.
  destruct (entries_cover _ _ _ Hstd Hs) as (e & He & Heq).
  pose proof (Forall_In_impl _ _ _ Hall He) as Hnum.
  simpl in Hnum. rewrite Heq in Hnum. unfold parserOf in Hnum.
  rewrite Hparser in Hnum.
  assert (Hnan : cutNum e = Num.NaN).
  { destruct Hother as [E|[o E]]; simpl in Hnum; rewrite E in Hnum;
      now injection Hnum as <-. }
  unfold unparsableCuts.
  change (Msg.cut_unparsable lvl)
    with (Msg.cut_unparsable (label (mkStandard lvl (inherited m lvl)))).
  rewrite <- Heq.
  apply (in_map (fun e => Msg.cut_unparsable (label (std e)))).
  apply filter_In. split; [exact He | now rewrite Hnan].
Qed.

Lemma X19_level_without_time_reported_witness :
  exists r,
    computePerformance (VStr "1:03.00")
      (array (transformSwimmingStandards Scenario.swimJson
                (Some ["B"; "constructor"])))
      Options.none = Return r
    /\ In (mkStandard "constructor" (inherited Scenario.swimJson "constructor"))
         (transformSwimmingStandards Scenario.swimJson
            (Some ["B"; "constructor"]))
    /\ In (Msg.cut_unparsable "constructor") (errorsOf r).
Proof.
  eexists. split; [vm_compute; reflexivity|].
  refine (X19_level_without_time_reported (VStr "1:03.00") Scenario.swimJson
            ["B"; "constructor"] Options.none _ "constructor" _ _ _ _ _).
  - right. now left.
  - intros [H|[H|[H|[H|[H|[H|[]]]]]]]; discriminate.
  - right. eexists. reflexivity.
  - reflexivity.
  - vm_compute. reflexivity.
Defined.

(** ** The default parser and the default formatter *)

Lemma drop_spaces_spaces (a cs : list ascii) :
  forallb Str.is_space a = true ->
  Str.drop_spaces (a ++ cs) = Str.drop_spaces cs.
Proof.
  induction a as [|c a IH]; simpl; [reflexivity|].
  intros H. apply andb_true_iff in H as [-> H]. now apply IH.
Qed.

Lemma drop_spaces_all (a : list ascii) :
  forallb Str.is_space a = true -> Str.drop_spaces a = [].
Proof.
  intros H. rewrite <- (app_nil_r a). now rewrite drop_spaces_spaces.
Qed.

Lemma drop_spaces_app (cs b : list ascii) :
  Str.drop_spaces cs <> [] ->
  Str.drop_spaces (cs ++ b) = Str.drop_spaces cs ++ b.
Proof.
  induction cs as [|c cs IH]; simpl; [contradiction|].
  destruct (Str.is_space c); [exact IH | reflexivity].
Qed.

Lemma forallb_rev {A} (f : A -> bool) (l : list A) :
  forallb f l = true -> forallb f (rev l) = true.
Proof.
  rewrite !forallb_forall. intros H x Hin. apply H. now apply in_rev.
Qed.

Lemma trim_chars_spaces (a cs b : list ascii) :
  forallb Str.is_space a = true ->
  forallb Str.is_space b = true ->
  Str.trim_chars (a ++ cs ++ b) = Str.trim_chars cs.
Proof.
  intros Ha Hb. unfold Str.trim_chars.
  rewrite (drop_spaces_spaces a _ Ha).
  destruct (Str.drop_spaces cs) as [|c rest] eqn:E.
  - assert (Hall : Str.drop_spaces (cs ++ b) = []).
    { clear Ha. induction cs as [|x cs IH]; simpl in *.
      - now apply drop_spaces_all.
      - destruct (Str.is_space x); [now apply IH | discriminate]. }
    now rewrite Hall.
  - rewrite drop_spaces_app by (rewrite E; discriminate).
    rewrite E, rev_app_distr.
    now rewrite (drop_spaces_spaces (rev b) _ (forallb_rev _ _ Hb)).
Qed.

Lemma chars_append (a b : string) :
  Str.chars (a +:+ b) = Str.chars a ++ Str.chars b.
Proof.
  unfold Str.chars. induction a as [|c a IH]; [reflexivity|].
  change (String c a +:+ b) with (String c (a +:+ b)). simpl. now rewrite IH.
Qed.

(** X20.  The default parser does not see the white space around a
    string: it returns the same number with and without it. *)
Theorem X20_parser_ignores_surrounding_space (before s after : string) :
  forallb Str.is_space (Str.chars before) = true ->
  forallb Str.is_space (Str.chars after) = true ->
  defaultTimeParser (VStr (before +:+ s +:+ after)) = defaultTimeParser (VStr s).
Proof.
  intros Hb Ha. unfold defaultTimeParser.
  now rewrite !chars_append, (trim_chars_spaces _ _ _ Hb Ha).
Qed.

Lemma X20_parser_ignores_surrounding_space_witness :
  defaultTimeParser (VStr ("  " +:+ "1:05.19" +:+ " "))
  = defaultTimeParser (VStr "1:05.19").
Proof.
  refine (X20_parser_ignores_surrounding_space "  " "1:05.19" " " _ _);
    vm_compute; reflexivity.
Defined.

(** X21.  The default formatter prints a finite negative number as the
    minus sign followed by what it prints for its magnitude. *)
Theorem X21_negative_prints_minus (value : number) :
  Num.isFinite value = true ->
  Num.lt value Num.zero = true ->
  defaultFormatAbsolute value = "-" +:+ defaultFormatAbsolute (Num.abs value).
Proof.
  destruct value as [s|s| |s m e]; intros Hfin Hneg.
  - destruct s; cbv in Hneg; discriminate.
  - cbv in Hfin. discriminate.
  - cbv in Hfin. discriminate.
  - destruct s; [|cbv in Hneg; discriminate].
    unfold defaultFormatAbsolute.
    change (Num.abs (S754_finite true m e)) with (S754_finite false m e).
    change (Num.abs (S754_finite false m e)) with (S754_finite false m e).
    change (Num.isFinite (S754_finite true m e)) with true.
    change (Num.isFinite (S754_finite false m e)) with true.
    change (Num.lt (S754_finite true m e) Num.zero) with true.
    change (Num.lt (S754_finite false m e) Num.zero) with false.
    cbv beta iota zeta delta [negb].
    remember (S754_finite false m e) as v eqn:Hv. clear Hv.
    destruct (Num.gt (Num.floor (Num.div v (Num.of_Z 3600))) Num.zero);
      [reflexivity|].
    destruct (Num.gt (Num.floor (Num.div (Num.rem v (Num.of_Z 3600))
                                   (Num.of_Z 60))) Num.zero);
      reflexivity.
Qed.

Lemma X21_negative_prints_minus_witness :
  defaultFormatAbsolute (Num.of_Z (-75))
  = "-" +:+ defaultFormatAbsolute (Num.abs (Num.of_Z (-75))).
Proof.
  refine (X21_negative_prints_minus (Num.of_Z (-75)) _ _);
    vm_compute; reflexivity.
Defined.

(** ** Printing a time and reading it back *)

Lemma all_below_spec (f : Z -> bool) (k : nat) (n : Z) :
  all_below f k = true -> (0 <= n < Z.of_nat k)%Z -> f n = true.
Proof.
  induction k as [|k IH]; simpl; [lia|].
  intros H Hn. apply andb_true_iff in H as [Hk H].
  destruct (Z.eq_dec n (Z.of_nat k)) as [->|Hne]; [exact Hk|].
  apply IH; [exact H | lia].
Qed.

Lemma round_trip_checked : all_below round_trip (Z.to_nat 6000) = true.
Proof. vm_compute. reflexivity. Qed.

Lemma clock_trip_checked : all_below clock_trip (Z.to_nat 3600) = true.
Proof. vm_compute. reflexivity. Qed.

(** X22.  For every time below one minute that is a whole number of
    hundredths (as the Number nearest to it), the default formatter
    prints [SS.dd], and the default parser reads what is printed back as
    the same Number. *)
Theorem X22_round_trip_below_a_minute (n : Z) :
  (0 <= n < 6000)%Z ->
  defaultFormatAbsolute (hundredths n)
  = two_digits (n / 100) +:+ "." +:+ two_digits (n mod 100)
  /\ defaultTimeParser (VStr (defaultFormatAbsolute (hundredths n)))
     = hundredths n.
Proof.
  intros Hn.
  pose proof (all_below_spec round_trip (Z.to_nat 6000) n round_trip_checked Hn) as H.
  unfold round_trip in H. apply andb_true_iff in H as [Hp Hr].
  split; [now apply String.eqb_eq | now apply same_eq].
Qed.

Lemma X22_round_trip_below_a_minute_witness :
  defaultFormatAbsolute (hundredths 5709)
  = two_digits (5709 / 100) +:+ "." +:+ two_digits (5709 mod 100)
  /\ defaultTimeParser (VStr (defaultFormatAbsolute (hundredths 5709)))
     = hundredths 5709.
Proof. apply (X22_round_trip_below_a_minute 5709). lia. Defined.

(** X23.  For every whole number of seconds below one hour, the default
    formatter prints the time of the clock ([SS.00], or [M:SS.00] from
    one minute on), and the default parser reads it back as the same
    number. *)
Theorem X23_whole_seconds_round_trip (n : Z) :
  (0 <= n < 3600)%Z ->
  defaultFormatAbsolute (Num.of_Z n) = clock n
  /\ defaultTimeParser (VStr (clock n)) = Num.of_Z n.
Proof.
  intros Hn.
  pose proof (all_below_spec clock_trip (Z.to_nat 3600) n clock_trip_checked Hn) as H.
  unfold clock_trip in H. apply andb_true_iff in H as [Hp Hr].
  apply String.eqb_eq in Hp. rewrite Hp in Hr.
  split; [exact Hp | now apply same_eq].
Qed.

Lemma X23_whole_seconds_round_trip_witness :
  defaultFormatAbsolute (Num.of_Z 725) = clock 725
  /\ defaultTimeParser (VStr (clock 725)) = Num.of_Z 725.
Proof. apply (X23_whole_seconds_round_trip 725). lia. Defined.
